(** * Restaurant booking app: address normalisation, form validation,
      order cart and restaurant-type registry

    A shallow embedding of the pure logic of

      - [src/screens/AddRestaurantScreen.js]   ([formatAddress], [validateForm]),
      - [src/screens/EditRestaurantScreen.js]  ([validateForm]),
      - [src/screens/RestaurantDetailScreen.js] ([addToCart], [removeFromCart],
        [getTotalPrice], [getTotalCalories]),
      - [src/utils/restaurantTypes.js] ([RESTAURANT_TYPES],
        [groupRestaurantsByType], [searchRestaurantTypes]).

    Modelling conventions.
      - A JavaScript string is a [string]; every character stands for one
        code unit in the range 0..255.  The regular-expression class [\s]
        and [String.prototype.trim] are taken on that range: TAB, LF, VT,
        FF, CR, SPACE and NBSP.
      - An optional string field of an object (absent, [undefined] or
        [null]) is an [option string]; the empty string is falsy.
      - A statement that throws is modelled by the [Throw] completion.
      - The quantity of a cart line is an integer count ([Z]).  Prices,
        calories and the totals are JavaScript numbers: binary64
        floating-point values ([float]) with the IEEE 754 addition,
        multiplication and comparison of the machine, each operation
        rounding to nearest-even.  A quantity enters a product as the
        binary64 number of the count ([Cart.toNumber]).
      - Form coordinates are JavaScript values whose finite numbers are
        rationals ([Q]). *)

From Stdlib Require Import Floats.
From Stdlib Require Uint63.
From Stdlib Require Import ZArith QArith Ascii String List Bool Lia.
From stdpp Require Import base decidable option list gmap strings.
Import ListNotations.

Local Open Scope string_scope.
Local Open Scope list_scope.

(** ** Completions: a value, or a thrown [TypeError] *)

Inductive completion (A : Type) : Type :=
| Normal (a : A)
| Throw (error : string).
Arguments Normal {A} a.
Arguments Throw {A} error.

Definition bindC {A B : Type} (c : completion A) (k : A -> completion B) : completion B :=
  match c with
  | Normal a => k a
  | Throw e => Throw e
  end.

(** [Array.prototype.reduce] with a callback that may throw. *)
Fixpoint reduceC {A B : Type} (f : B -> A -> completion B) (l : list A) (acc : B) : completion B :=
  match l with
  | [] => Normal acc
  | x :: rest => bindC (f acc x) (reduceC f rest)
  end.

(** ** JavaScript string primitives *)

Module Js.

(** The class [\s], which is also the set removed by [trim]. *)
Definition is_space (c : ascii) : bool :=
  let n := nat_of_ascii c in
  (n =? 9)%nat || (n =? 10)%nat || (n =? 11)%nat || (n =? 12)%nat
  || (n =? 13)%nat || (n =? 32)%nat || (n =? 160)%nat.

(** The class [[A-Z0-9]]. *)
Definition is_upper_alnum (c : ascii) : bool :=
  let n := nat_of_ascii c in
  ((65 <=? n)%nat && (n <=? 90)%nat) || ((48 <=? n)%nat && (n <=? 57)%nat).

Definition is_comma (c : ascii) : bool := Ascii.eqb c ",".
Definition is_plus (c : ascii) : bool := Ascii.eqb c "+".

(** Truthiness of a string value. *)
Definition nonempty (s : string) : bool :=
  match s with
  | EmptyString => false
  | String _ _ => true
  end.

(** Truthiness of an optional string field. *)
Definition truthy (o : option string) : bool :=
  match o with
  | Some s => nonempty s
  | None => false
  end.

(** Greedy [\s*] at the head: what is left after it. *)
Fixpoint drop_spaces (s : string) : string :=
  match s with
  | EmptyString => EmptyString
  | String c t => if is_space c then drop_spaces t else s
  end.

(** Greedy [[A-Z0-9]*] at the head: what is left after it. *)
Fixpoint drop_upper_alnum (s : string) : string :=
  match s with
  | EmptyString => EmptyString
  | String c t => if is_upper_alnum c then drop_upper_alnum t else s
  end.

(** [\s*$] at the head: the string holds white space only. *)
Fixpoint all_spaces (s : string) : bool :=
  match s with
  | EmptyString => true
  | String c t => is_space c && all_spaces t
  end.

Fixpoint trimEnd (s : string) : string :=
  match s with
  | EmptyString => EmptyString
  | String c t => if all_spaces s then EmptyString else String c (trimEnd t)
  end.

(** [s.trim()] *)
Definition trim (s : string) : string := trimEnd (drop_spaces s).

(** [s.includes(sub)] *)
Fixpoint includes (s sub : string) : bool :=
  String.prefix sub s
  || match s with
     | EmptyString => false
     | String _ t => includes t sub
     end.

(** [toLowerCase] of one code unit: A-Z, and the upper-case letters of the
    range 192..222 other than the multiplication sign 215. *)
Definition lower_char (c : ascii) : ascii :=
  let n := nat_of_ascii c in
  if ((65 <=? n)%nat && (n <=? 90)%nat)
     || ((192 <=? n)%nat && (n <=? 222)%nat && negb (n =? 215)%nat)
  then ascii_of_nat (n + 32) else c.

(** [s.toLowerCase()] *)
Fixpoint toLowerCase (s : string) : string :=
  match s with
  | EmptyString => EmptyString
  | String c t => String (lower_char c) (toLowerCase t)
  end.

(** [parts.join(sep)] *)
Definition join (sep : string) (parts : list string) : string :=
  String.concat sep parts.

(** *** Regular expressions

    A pattern is represented by its anchored matcher: applied to the text
    at the current position it returns the text after the match.  None of
    the patterns below matches the empty string, so the text returned is
    strictly shorter. *)

(** [s.replace(/re/g, rep)]: scan from the left; at a match emit [rep] and
    resume after it, otherwise copy one character.  The recursion is on
    [fuel]; [String.length s] is enough ([replace_all] below). *)
Fixpoint replace_all_fuel (re : string -> option string) (rep : string)
         (fuel : nat) (s : string) : string :=
  match fuel with
  | O => s
  | S fuel' =>
      match s with
      | EmptyString => EmptyString
      | String c t =>
          match re s with
          | Some rest => String.append rep (replace_all_fuel re rep fuel' rest)
          | None => String c (replace_all_fuel re rep fuel' t)
          end
      end
  end.

Definition replace_all (re : string -> option string) (rep : string) (s : string) : string :=
  replace_all_fuel re rep (String.length s) s.

(** A pattern whose every match consumes at least one character. *)
Definition consuming (re : string -> option string) : Prop :=
  forall s rest, re s = Some rest -> (String.length rest < String.length s)%nat.

(** [/[A-Z0-9]{4}\+[A-Z0-9]{2,}\s*,?\s*/] anchored at the head.  The four
    classes of the pattern are pairwise disjoint and everything after the
    two mandatory characters may match the empty string, so the greedy
    choice is the match. *)
Definition re_plus_code (s : string) : option string :=
  match s with
  | String a (String b (String c (String d (String p (String e (String f r)))))) =>
      if is_upper_alnum a && is_upper_alnum b && is_upper_alnum c && is_upper_alnum d
         && is_plus p && is_upper_alnum e && is_upper_alnum f
      then
        let r1 := drop_upper_alnum r in
        let r2 := drop_spaces r1 in
        let r3 := match r2 with
                  | String k t => if is_comma k then t else r2
                  | EmptyString => r2
                  end in
        Some (drop_spaces r3)
      else None
  | _ => None
  end.

(** [/,\s*,/] anchored at the head. *)
Definition re_comma_pair (s : string) : option string :=
  match s with
  | String k t =>
      if is_comma k then
        match drop_spaces t with
        | String k' r => if is_comma k' then Some r else None
        | EmptyString => None
        end
      else None
  | EmptyString => None
  end.

(** [s.replace(/[A-Z0-9]{4}\+[A-Z0-9]{2,}\s*,?\s*/g, '')] *)
Definition strip_plus_codes (s : string) : string := replace_all re_plus_code "" s.

(** [s.replace(/,\s*,/g, ',')] *)
Definition collapse_commas (s : string) : string := replace_all re_comma_pair "," s.

(** [s.replace(/^\s*,\s*/, '')] *)
Definition strip_leading_comma (s : string) : string :=
  match drop_spaces s with
  | String k t => if is_comma k then drop_spaces t else s
  | EmptyString => s
  end.

(** [/\s*,\s*$/] anchored at the head. *)
Definition re_trailing_comma (s : string) : bool :=
  match drop_spaces s with
  | String k t => is_comma k && all_spaces t
  | EmptyString => false
  end.

(** [s.replace(/\s*,\s*$/, '')]: the leftmost position where the pattern
    matches; the match runs to the end of the string. *)
Fixpoint strip_trailing_comma (s : string) : string :=
  match s with
  | EmptyString => EmptyString
  | String c t => if re_trailing_comma s then EmptyString else String c (strip_trailing_comma t)
  end.

(** [/re/.test(s)]: the pattern matches at some position of [s]. *)
Fixpoint occurs (re : string -> option string) (s : string) : bool :=
  match re s with
  | Some _ => true
  | None => match s with
            | EmptyString => false
            | String _ t => occurs re t
            end
  end.

(** [/[A-Z0-9]{4}\+[A-Z0-9]{2,}/.test(s)]: the plus-code pattern occurs
    somewhere in [s] (the optional tail [\s*,?\s*] of [re_plus_code]
    always matches). *)
Definition has_plus_code (s : string) : bool := occurs re_plus_code s.

(** [/,\s*,/.test(s)]: [s] holds two commas with at most white space
    between them. *)
Definition has_comma_pair (s : string) : bool := occurs re_comma_pair s.

(** [/\s*,\s*$/.test(s)]: [s] ends with a comma, up to white space. *)
Fixpoint has_trailing_comma (s : string) : bool :=
  re_trailing_comma s
  || match s with
     | EmptyString => false
     | String _ t => has_trailing_comma t
     end.

(** [!/^\s*,/.test(s)]: [s] does not begin with a comma, up to white space. *)
Definition no_leading_comma (s : string) : bool :=
  match drop_spaces s with
  | String k _ => negb (is_comma k)
  | EmptyString => true
  end.

(** [s] holds no comma. *)
Fixpoint no_comma (s : string) : bool :=
  match s with
  | EmptyString => true
  | String c t => negb (is_comma c) && no_comma t
  end.

(** A character that is neither white space nor a comma. *)
Definition is_plain (c : ascii) : bool := negb (is_space c) && negb (is_comma c).

(** [s] begins, respectively ends, with a plain character. *)
Definition starts_plain (s : string) : bool :=
  match s with
  | EmptyString => false
  | String c _ => is_plain c
  end.

Fixpoint ends_plain (s : string) : bool :=
  match s with
  | EmptyString => false
  | String c EmptyString => is_plain c
  | String _ t => ends_plain t
  end.

End Js.

(** ** Address normalisation ([formatAddress], AddRestaurantScreen.js) *)

Module Address.

(** One result of reverse geocoding, as destructured by [formatAddress]. *)
Record AddressData : Type := mkAddressData {
  name : option string;
  streetNumber : option string;
  street : option string;
  subregion : option string;
  city : option string;
  region : option string;
  country : option string;
  formattedAddress : option string;
  district : option string
}.

(** The empty object [{}]. *)
Definition empty : AddressData :=
  mkAddressData None None None None None None None None None.

(** [x !== y] on two optional string fields. *)
Definition differs (x y : option string) : bool := negb (bool_decide (x = y)).

(** The value pushed for a field known to be truthy. *)
Definition value (o : option string) : string := default "" o.

(** Step 1: the most specific location identifier. *)
Definition step1 (a : AddressData) : list string :=
  if Js.truthy (name a) && negb (Js.includes (value (name a)) "+")
     && differs (name a) (city a) && differs (name a) (subregion a)
  then [value (name a)] else [].

(** Step 2: street information. *)
Definition step2 (a : AddressData) : list string :=
  if Js.truthy (streetNumber a) && Js.truthy (street a)
  then [value (streetNumber a) +:+ " " +:+ value (street a)]
  else if Js.truthy (street a) && differs (street a) (name a)
       then [value (street a)] else [].

(** Step 3: locality (subregion). *)
Definition step3 (a : AddressData) : list string :=
  if Js.truthy (subregion a) && differs (subregion a) (city a)
     && differs (subregion a) (region a)
  then [value (subregion a)] else [].

(** Step 4: district. *)
Definition step4 (a : AddressData) : list string :=
  if Js.truthy (district a) && differs (district a) (city a)
     && differs (district a) (subregion a)
  then [value (district a)] else [].

(** Step 5: city. *)
Definition step5 (a : AddressData) : list string :=
  if Js.truthy (city a) then [value (city a)] else [].

(** Step 6: region. *)
Definition step6 (a : AddressData) : list string :=
  if Js.truthy (region a) && differs (region a) (city a)
     && differs (region a) (district a)
  then [value (region a)] else [].

(** Step 7: country. *)
Definition step7 (a : AddressData) : list string :=
  if Js.truthy (country a) then [value (country a)] else [].

(** What steps 2 to 7 push. *)
Definition laterParts (a : AddressData) : list string :=
  step2 a ++ step3 a ++ step4 a ++ step5 a ++ step6 a ++ step7 a.

(** The array [addressParts] after step 7. *)
Definition addressParts (a : AddressData) : list string := step1 a ++ laterParts a.

(** The three comma replacements and the [trim] shared by the clean-up of
    [formattedAddress] and by the final clean-up. *)
Definition tidy (s : string) : string :=
  Js.trim (Js.strip_trailing_comma (Js.strip_leading_comma (Js.collapse_commas s))).

(** A text without its boundary commas and surrounding white space: the
    last three steps of [tidy]. *)
Definition boundaryCleaned (s : string) : string :=
  Js.trim (Js.strip_trailing_comma (Js.strip_leading_comma s)).

(** [cleanedAddress]: [formattedAddress] without plus codes, tidied. *)
Definition cleanFormatted (fa : string) : string := tidy (Js.strip_plus_codes fa).

(** [constructedAddress] just before the final clean-up. *)
Definition candidate (a : AddressData) : string :=
  let constructedAddress := Js.join ", " (addressParts a) in
  if (length (addressParts a) <? 3)%nat && Js.truthy (formattedAddress a) then
    let cleanedAddress := cleanFormatted (value (formattedAddress a)) in
    if (String.length constructedAddress <? String.length cleanedAddress)%nat
    then cleanedAddress else constructedAddress
  else constructedAddress.

Definition sentinel : string := "Location detected".

(** The final clean-up followed by [constructedAddress || 'Location detected']. *)
Definition finish (constructedAddress : string) : string :=
  let cleaned := tidy constructedAddress in
  if Js.nonempty cleaned then cleaned else sentinel.

(** [formatAddress(addressData)]; [None] is a falsy argument ([null] or
    [undefined]), for which the function returns the empty string. *)
Definition formatAddress (addressData : option AddressData) : string :=
  match addressData with
  | None => ""
  | Some a => finish (candidate a)
  end.

(** Vocabulary of the specification. *)

(** Step 1 appended [name]: it is the first part, before what steps 2 to 7
    push. *)
Definition nameAppended (a : AddressData) : Prop :=
  exists n, name a = Some n /\ addressParts a = n :: laterParts a.

(** A usable [formattedAddress]: supplied, and not empty once cleaned. *)
Definition usableFormatted (a : AddressData) : bool :=
  match formattedAddress a with
  | Some fa => Js.nonempty (tidy (cleanFormatted fa))
  | None => false
  end.

(** A part that needs no cleaning: it holds no comma and neither begins
    nor ends with white space (so it is not empty). *)
Definition cleanPart (p : string) : bool :=
  Js.starts_plain p && Js.ends_plain p && Js.no_comma p.

(** Every structured field is absent. *)
Definition onlyFormatted (a : AddressData) : Prop :=
  a = mkAddressData None None None None None None None (formattedAddress a) None.

End Address.

(** ** Order cart (RestaurantDetailScreen.js) *)

Module Cart.

(** A menu item as the cart reads it; [calories] may be missing. *)
Record MenuItem : Type := mkMenuItem {
  id : string;
  name : string;
  description : string;
  price : float;
  calories : option float;
  isAvailable : bool
}.

(** A cart line [{ ...item, quantity }]. *)
Record CartItem : Type := mkCartItem {
  item : MenuItem;
  quantity : Z
}.

Definition itemId (cartItem : CartItem) : string := id (item cartItem).

(** [cartItem.id === itemId] *)
Definition hasId (i : string) (cartItem : CartItem) : bool := String.eqb (itemId cartItem) i.

(** [{ ...cartItem, quantity: q }] *)
Definition withQuantity (cartItem : CartItem) (q : Z) : CartItem :=
  mkCartItem (item cartItem) q.

(** The updater that [addToCart(item)] hands to [setCart]. *)
Definition addToCart (it : MenuItem) (prev : list CartItem) : list CartItem :=
  match List.find (hasId (id it)) prev with
  | Some _ =>
      List.map (fun cartItem =>
                  if hasId (id it) cartItem
                  then withQuantity cartItem (quantity cartItem + 1)
                  else cartItem) prev
  | None => prev ++ [mkCartItem it 1]
  end.

(** The updater that [removeFromCart(itemId)] hands to [setCart].  When no
    line has the id, [existingItem] is [undefined] and reading its
    [quantity] throws. *)
Definition removeFromCart (i : string) (prev : list CartItem) : completion (list CartItem) :=
  match List.find (hasId i) prev with
  | None => Throw "TypeError"
  | Some existingItem =>
      if (quantity existingItem =? 1)%Z
      then Normal (List.filter (fun cartItem => negb (hasId i cartItem)) prev)
      else Normal (List.map (fun cartItem =>
                               if hasId i cartItem
                               then withQuantity cartItem (quantity cartItem - 1)
                               else cartItem) prev)
  end.

(** The largest count that [+ 1] reaches in binary64: 2^53.  A further
    [+ 1] rounds back to it. *)
Definition maxCount : Z := 9007199254740992.

(** The quantity of a line as the JavaScript number that the products
    read.  A line counts from 1 in steps of 1: binary64 holds every such
    count exactly up to [maxCount], and [quantity + 1] at [maxCount]
    rounds back to [maxCount], so that is the number of any larger
    count. *)
Definition toNumber (q : Z) : float :=
  let n := of_uint63 (Uint63.of_Z (Z.min (Z.abs q) maxCount)) in
  if (q <? 0)%Z then (- n)%float else n.

(** [item.calories || 0]: a missing [calories], a zero of either sign and
    [NaN] are falsy and give [0]. *)
Definition caloriesOrZero (it : MenuItem) : float :=
  match calories it with
  | Some c => if PrimFloat.is_zero c || PrimFloat.is_nan c then 0%float else c
  | None => 0%float
  end.

(** [item.price * item.quantity] and [(item.calories || 0) * item.quantity] *)
Definition linePrice (ci : CartItem) : float :=
  (price (item ci) * toNumber (quantity ci))%float.

Definition lineCalorie (ci : CartItem) : float :=
  (caloriesOrZero (item ci) * toNumber (quantity ci))%float.

(** [cart.reduce((total, item) => total + item.price * item.quantity, 0)] *)
Definition getTotalPrice (cart : list CartItem) : float :=
  List.fold_left (fun total ci => (total + price (item ci) * toNumber (quantity ci))%float)
                 cart 0%float.

(** [cart.reduce((total, item) => total + (item.calories || 0) * item.quantity, 0)] *)
Definition getTotalCalories (cart : list CartItem) : float :=
  List.fold_left (fun total ci =>
                    (total + caloriesOrZero (item ci) * toNumber (quantity ci))%float)
                 cart 0%float.

(** The sum of a list of numbers: the terms are added one by one, in the
    order of the list, to a total that starts at [0]; every addition
    rounds. *)
Definition sum (l : list float) : float :=
  List.fold_left (fun total x => (total + x)%float) l 0%float.

(** The totals as the specification words them: the sum over the current
    lines of price (calories) times quantity. *)
Definition linePrices (cart : list CartItem) : list float := List.map linePrice cart.

Definition lineCalories (cart : list CartItem) : list float := List.map lineCalorie cart.

(** [0 <= x] on the value of a number: a zero of either sign, a positive
    finite number or [+Infinity]; [NaN] is not. *)
Definition SFnonneg (x : spec_float) : bool :=
  match x with
  | S754_zero _ => true
  | S754_infinity false => true
  | S754_finite false _ _ => true
  | _ => false
  end.

(** A value that is a zero, an infinity or a finite number of sign [sx]. *)
Definition SFsigned (sx : bool) (x : spec_float) : Prop :=
  x = S754_zero sx \/ x = S754_infinity sx \/ exists m e, x = S754_finite sx m e.

(** The cart states of a session: [useState([])], then any number of
    [addToCart] and [removeFromCart] updates; an update that throws
    produces no state.  [P] restricts the menu items offered. *)
Inductive reachable (P : MenuItem -> Prop) : list CartItem -> Prop :=
| reach_init : reachable P []
| reach_add (it : MenuItem) (cart : list CartItem) :
    P it -> reachable P cart -> reachable P (addToCart it cart)
| reach_remove (i : string) (cart cart' : list CartItem) :
    reachable P cart -> removeFromCart i cart = Normal cart' -> reachable P cart'.

Definition anyItem (it : MenuItem) : Prop := True.

(** [0 <= item.price] and [0 <= (item.calories || 0)] *)
Definition nonNegative (it : MenuItem) : Prop :=
  (0 <=? price it)%float = true /\ (0 <=? caloriesOrZero it)%float = true.

(** The line invariants: one line per item id, quantities at least 1. *)
Definition wellFormed (cart : list CartItem) : Prop :=
  NoDup (List.map itemId cart) /\ Forall (fun ci => (1 <= quantity ci)%Z) cart.

(** *** The menu row and the order ([renderMenuItem], [handlePlaceOrder]) *)

(** The [quantity] that [renderMenuItem] shows for a menu item:
    [cartItem ? cartItem.quantity : 0]. *)
Definition displayedQuantity (cart : list CartItem) (it : MenuItem) : Z :=
  match List.find (hasId (id it)) cart with
  | Some cartItem => quantity cartItem
  | None => 0%Z
  end.

(** [quantity > 0]: the remove button of the row is rendered. *)
Definition removeButtonShown (cart : list CartItem) (it : MenuItem) : bool :=
  (0 <? displayedQuantity cart it)%Z.

(** What [handlePlaceOrder] reads of the restaurant and of the user. *)
Record RestaurantRef : Type := mkRestaurantRef {
  restaurantId : string;
  restaurantName : string;
  restaurantImage : option string
}.

Record User : Type := mkUser {
  uid : string;
  address : option string
}.

(** The object [orderData]. *)
Record OrderData : Type := mkOrderData {
  orderRestaurantId : string;
  orderRestaurantName : string;
  orderRestaurantImage : option string;
  items : list CartItem;
  totalPrice : float;
  totalCalories : float;
  deliveryAddress : option string
}.

(** What [handlePlaceOrder] does before it awaits [placeOrder]. *)
Inductive orderStep : Type :=
| NavigateLogin
| AlertEmptyCart
| PlaceOrder (orderData : OrderData).

Definition handlePlaceOrder (user : option User) (restaurant : RestaurantRef)
           (cart : list CartItem) : orderStep :=
  match user with
  | None => NavigateLogin
  | Some u =>
      match cart with
      | [] => AlertEmptyCart
      | _ :: _ =>
          PlaceOrder (mkOrderData (restaurantId restaurant) (restaurantName restaurant)
                        (restaurantImage restaurant) cart (getTotalPrice cart)
                        (getTotalCalories cart) (address u))
      end
  end.

(** The cart after [placeOrder] has answered: [setCart([])] on success. *)
Definition afterPlaceOrder (success : bool) (cart : list CartItem) : list CartItem :=
  if success then [] else cart.

(** Two items of a menu, for the examples. *)
Definition burger : MenuItem :=
  mkMenuItem "m1" "Burger" "Beef burger" 450%float (Some 520%float) true.
Definition tea : MenuItem := mkMenuItem "m2" "Tea" "Doodh patti" 80%float None true.

(** Three items priced 0.1, 0.2 and 0.3 (the nearest binary64 values). *)
Definition samosa : MenuItem :=
  mkMenuItem "m3" "Samosa" "Potato samosa" 0x1.999999999999ap-4%float None true.
Definition chutney : MenuItem :=
  mkMenuItem "m4" "Chutney" "Mint chutney" 0x1.999999999999ap-3%float None true.
Definition naan : MenuItem :=
  mkMenuItem "m5" "Naan" "Plain naan" 0x1.3333333333333p-2%float None true.

End Cart.

(** ** Form validation ([validateForm], Add- and EditRestaurantScreen.js) *)

Module Form.

(** A JavaScript number: not-a-number, an infinity, or a finite value. *)
Inductive number : Type :=
| NaN
| Infinity (negative : bool)
| Finite (q : Q).

(** The values a form field for a coordinate can hold. *)
Inductive value : Type :=
| Null
| Num (n : number)
| Str (s : string).

(** [!!v] *)
Definition truthy (v : value) : bool :=
  match v with
  | Null => false
  | Num NaN => false
  | Num (Infinity _) => true
  | Num (Finite q) => negb (Qeq_bool q 0)
  | Str s => Js.nonempty s
  end.

(** [typeof v === 'number'] *)
Definition isNumber (v : value) : bool :=
  match v with
  | Num _ => true
  | _ => false
  end.

(** [v < bound] and [v > bound] for a finite [bound]; they are evaluated on
    numbers only, because the [typeof] tests come first in the [||] chain. *)
Definition lessThan (v : value) (bound : Q) : bool :=
  match v with
  | Num (Finite q) => negb (Qle_bool bound q)
  | Num (Infinity negative) => negative
  | _ => false
  end.

Definition greaterThan (v : value) (bound : Q) : bool :=
  match v with
  | Num (Finite q) => negb (Qle_bool q bound)
  | Num (Infinity negative) => negb negative
  | _ => false
  end.

(** The condition of the last [if] of [validateForm], the same in both
    screens: when it holds the location is refused. *)
Definition locationRefused (latitude longitude : value) : bool :=
  negb (truthy latitude) || negb (truthy longitude)
  || negb (isNumber latitude) || negb (isNumber longitude)
  || lessThan latitude (-90) || greaterThan latitude 90
  || lessThan longitude (-180) || greaterThan longitude 180.

(** [\S+\.\S+] anchored at the head. *)
Fixpoint re_host (s : string) : bool :=
  match s with
  | EmptyString => false
  | String c t =>
      negb (Js.is_space c)
      && ((match t with
           | String dot (String d _) => Ascii.eqb dot "." && negb (Js.is_space d)
           | _ => false
           end)
          || re_host t)
  end.

(** [/\S+@\S+\.\S+/.test(s)] *)
Fixpoint emailTest (s : string) : bool :=
  match s with
  | EmptyString => false
  | String c t =>
      (negb (Js.is_space c)
       && match t with
          | String at_ r => Ascii.eqb at_ "@" && re_host r
          | EmptyString => false
          end)
      || emailTest t
  end.

(** [!field.trim()] *)
Definition blank (field : string) : bool := negb (Js.nonempty (Js.trim field)).

(** The form state [formData]. *)
Record RestaurantDraft : Type := mkRestaurantDraft {
  name : string;
  cuisine : string;
  type : string;
  description : string;
  phone : string;
  email : string;
  address : string;
  latitude : value;
  longitude : value
}.

(** The outcome of [validateForm]: [true], or [false] after an alert. *)
Inductive verdict : Type :=
| Accepted
| Rejected (alert : string).

Definition accepted (v : verdict) : bool :=
  match v with
  | Accepted => true
  | Rejected _ => false
  end.

(** The checks that both screens make before the location. *)
Definition checkContact (d : RestaurantDraft) (next : verdict) : verdict :=
  if blank (description d) then Rejected "Please enter restaurant description"
  else if blank (phone d) then Rejected "Please enter phone number"
  else if blank (email d) then Rejected "Please enter email address"
  else if negb (emailTest (email d)) then Rejected "Please enter a valid email address"
  else if blank (address d) then Rejected "Please enter restaurant address"
  else next.

(** [validateForm] of AddRestaurantScreen.js. *)
Definition validateForm (d : RestaurantDraft) : verdict :=
  if blank (name d) then Rejected "Please enter restaurant name"
  else if blank (cuisine d) then Rejected "Please select cuisine type"
  else if blank (type d) then Rejected "Please select restaurant type"
  else checkContact d
         (if locationRefused (latitude d) (longitude d)
          then Rejected "Please set a valid restaurant location using GPS or map picker"
          else Accepted).

(** [validateForm] of EditRestaurantScreen.js; its form has no [type]. *)
Definition validateFormEdit (d : RestaurantDraft) : verdict :=
  if blank (name d) then Rejected "Please enter restaurant name"
  else if blank (cuisine d) then Rejected "Please select cuisine type"
  else checkContact d
         (if locationRefused (latitude d) (longitude d)
          then Rejected "Please set a valid restaurant location"
          else Accepted).


End Form.

(** ** Restaurant types (utils/restaurantTypes.js) *)

Module Types.

Record RestaurantType : Type := mkRestaurantType {
  name : string;
  color : string;
  description : string
}.

Definition RESTAURANT_TYPES : list RestaurantType :=
  [ mkRestaurantType "Go Green" "#4CAF50" "Eco-friendly and sustainable dining";
    mkRestaurantType "Fine Dining" "#8E24AA" "Upscale restaurants with premium service";
    mkRestaurantType "Casual Dining" "#FF7043" "Relaxed atmosphere with table service";
    mkRestaurantType "Cafe" "#795548" "Coffee shops and light meals";
    mkRestaurantType "Fast Food" "#F44336" "Quick service restaurants";
    mkRestaurantType "Buffet" "#FF9800" "Self-service dining with variety";
    mkRestaurantType "Food Truck" "#2196F3" "Mobile food vendors";
    mkRestaurantType "Bakery" "#FFEB3B" "Fresh baked goods and pastries";
    mkRestaurantType "Dessert Shop" "#E91E63" "Sweets, ice cream, and desserts";
    mkRestaurantType "Bar" "#9C27B0" "Drinks and bar food";
    mkRestaurantType "Pub" "#607D8B" "Casual drinking establishment with food" ].

(** [getRestaurantTypeNames()] *)
Definition getRestaurantTypeNames : list string := List.map name RESTAURANT_TYPES.

(** [isValidRestaurantType(type)] *)
Definition isValidRestaurantType (ty : string) : bool :=
  List.existsb (fun t => String.eqb (name t) ty) RESTAURANT_TYPES.

(** A restaurant as the grouping reads it: an identity and a [type] that
    may be missing. *)
Record Restaurant : Type := mkRestaurant {
  restaurantId : string;
  type : option string
}.

(** [restaurant.type || 'Other'] *)
Definition bucketKey (r : Restaurant) : string :=
  if Js.truthy (type r) then default "" (type r) else "Other".

(** The property names that the accumulator [{}] inherits from
    [Object.prototype]: reading one of them yields a function or an
    object, never [undefined]. *)
Definition inheritedKeys : list string :=
  [ "constructor"; "hasOwnProperty"; "isPrototypeOf"; "propertyIsEnumerable";
    "toLocaleString"; "toString"; "valueOf"; "__defineGetter__";
    "__defineSetter__"; "__lookupGetter__"; "__lookupSetter__"; "__proto__" ].

Definition inherited (key : string) : bool :=
  List.existsb (String.eqb key) inheritedKeys.

(** The callback of the [reduce] in [groupRestaurantsByType].  The own
    properties of [acc] are the buckets.  For an inherited name
    [acc[type]] is truthy without being an array, so no bucket is created
    and the call of [push] throws. *)
Definition groupStep (acc : gmap string (list Restaurant)) (restaurant : Restaurant)
  : completion (gmap string (list Restaurant)) :=
  let ty := bucketKey restaurant in
  match acc !! ty with
  | Some bucket => Normal (<[ty := bucket ++ [restaurant]]> acc)
  | None =>
      if inherited ty then Throw "TypeError"
      else Normal (<[ty := [restaurant]]> acc)
  end.

(** [groupRestaurantsByType(restaurants)] *)
Definition groupRestaurantsByType (restaurants : list Restaurant)
  : completion (gmap string (list Restaurant)) :=
  reduceC groupStep restaurants ∅.

(** The restaurants of a list that go to the bucket [key], in order. *)
Definition bucketOf (key : string) (restaurants : list Restaurant) : list Restaurant :=
  List.filter (fun r => String.eqb (bucketKey r) key) restaurants.

(** [searchRestaurantTypes(query)] *)
Definition searchRestaurantTypes (query : string) : list RestaurantType :=
  if negb (Js.nonempty query) || negb (Js.nonempty (Js.trim query))
  then RESTAURANT_TYPES
  else
    let searchTerm := Js.trim (Js.toLowerCase query) in
    List.filter (fun t =>
                   Js.includes (Js.toLowerCase (name t)) searchTerm
                   || Js.includes (Js.toLowerCase (description t)) searchTerm)
                RESTAURANT_TYPES.

(** Case-insensitive containment in the words of the specification. *)
Definition containsIgnoringCase (text fragment : string) : bool :=
  Js.includes (Js.toLowerCase text) (Js.toLowerCase fragment).

(** The entries that match a fragment by name or description. *)
Definition matching (fragment : string) : list RestaurantType :=
  List.filter (fun t => containsIgnoringCase (name t) fragment
                        || containsIgnoringCase (description t) fragment)
              RESTAURANT_TYPES.

(** *** The other lookups of the registry *)

(** [getRestaurantTypeInfo(type)]; [None] is [null]. *)
Definition getRestaurantTypeInfo (ty : string) : option RestaurantType :=
  List.find (fun t => String.eqb (name t) ty) RESTAURANT_TYPES.

(** The own properties of [RESTAURANT_TYPE_COLORS], built by [reduce]. *)
Definition RESTAURANT_TYPE_COLORS : gmap string string :=
  List.fold_left (fun acc t => <[name t := color t]> acc) RESTAURANT_TYPES ∅.

(** What [getRestaurantTypeColor] returns: a colour string or, for a
    property name inherited from [Object.prototype], the inherited
    function or object. *)
Inductive colorResult : Type :=
| Color (hex : string)
| InheritedMember.

(** [RESTAURANT_TYPE_COLORS[type] || '#FF6B35'] *)
Definition getRestaurantTypeColor (ty : string) : colorResult :=
  match RESTAURANT_TYPE_COLORS !! ty with
  | Some hex => if Js.nonempty hex then Color hex else Color "#FF6B35"
  | None => if inherited ty then InheritedMember else Color "#FF6B35"
  end.

(** [getRestaurantsByType(restaurants, type)] *)
Definition getRestaurantsByType (restaurants : list Restaurant) (ty : string) : list Restaurant :=
  List.filter (fun r => bool_decide (type r = Some ty)) restaurants.

(** All buckets of a grouping, one after the other. *)
Definition flatten (buckets : gmap string (list Restaurant)) : list Restaurant :=
  List.concat (List.map snd (map_to_list buckets)).

End Types.

(** ** Statistics per type ([getRestaurantTypeStats], utils/restaurantTypes.js) *)

Module Stats.

(** The [percentage] of an entry: the number 0 it is initialised with, or
    the string that [toFixed(1)] returns. *)
Inductive percent : Type :=
| Zero
| Fixed (text : string).

(** One entry of the object [stats]. *)
Record TypeStat : Type := mkTypeStat {
  count : Z;
  percentage : percent;
  color : string
}.

(** The object returned. *)
Record Result : Type := mkResult {
  stats : gmap string TypeStat;
  totalWithType : Z;
  totalRestaurants : Z;
  withoutType : Z
}.

(** [stats] after the first loop: every registry type with count 0. *)
Definition initial : gmap string TypeStat :=
  List.fold_left (fun acc t => <[Types.name t := mkTypeStat 0 Zero (Types.color t)]> acc)
                 Types.RESTAURANT_TYPES ∅.

Definition increment (s : TypeStat) : TypeStat :=
  mkTypeStat (count s + 1) (percentage s) (color s).

(** One round of the second loop, on the pair of [stats] and
    [totalWithType].  When [restaurant.type] names a property inherited
    from [Object.prototype], [stats[restaurant.type]] is truthy as well:
    the [count] of that inherited function or object is set, no entry of
    [stats] changes, and [totalWithType] still grows. *)
Definition countStep (state : gmap string TypeStat * Z) (restaurant : Types.Restaurant)
  : gmap string TypeStat * Z :=
  let '(st, total) := state in
  match Types.type restaurant with
  | Some ty =>
      if Js.nonempty ty then
        match st !! ty with
        | Some entry => (<[ty := increment entry]> st, (total + 1)%Z)
        | None => if Types.inherited ty then (st, (total + 1)%Z) else (st, total)
        end
      else (st, total)
  | None => (st, total)
  end.

Section Formatting.

(** [((count / totalWithType) * 100).toFixed(1)]: a floating-point division
    and its decimal rendering, taken as given. *)
Variable toFixed1 : Z -> Z -> string.

(** The third loop: over [Object.keys(stats)]. *)
Definition withPercentages (st : gmap string TypeStat) (total : Z) : gmap string TypeStat :=
  if (0 <? total)%Z
  then (fun s => mkTypeStat (count s) (Fixed (toFixed1 (count s) total)) (color s)) <$> st
  else st.

(** [getRestaurantTypeStats(restaurants)] *)
Definition getRestaurantTypeStats (restaurants : list Types.Restaurant) : Result :=
  let '(st, total) := List.fold_left countStep restaurants (initial, 0%Z) in
  mkResult (withPercentages st total) total
           (Z.of_nat (length restaurants))
           (Z.of_nat (length restaurants) - total)%Z.

End Formatting.

(** The keys of [stats] are the registry names. *)
Definition registryKeys (st : gmap string TypeStat) : Prop :=
  forall ty, is_Some (st !! ty) <-> Types.isValidRestaurantType ty = true.

(** An entry counted [k] more times. *)
Definition bump (k : nat) (s : TypeStat) : TypeStat :=
  mkTypeStat (count s + Z.of_nat k) (percentage s) (color s).

(** A restaurant that the second loop counts. *)
Definition counted (r : Types.Restaurant) : bool :=
  match Types.type r with
  | Some ty => Js.nonempty ty && (Types.isValidRestaurantType ty || Types.inherited ty)
  | None => false
  end.

End Stats.

(** ** Submission and editing (handleSubmit of both screens, the edit form) *)

Module Submit.

(** [location] of the payload. *)
Record Location : Type := mkLocation {
  address : string;
  latitude : Form.value;
  longitude : Form.value
}.

(** [restaurantData], the payload that the add screen hands to
    [addRestaurant]. *)
Record RestaurantData : Type := mkRestaurantData {
  name : string;
  cuisine : string;
  type : string;
  description : string;
  phone : string;
  email : string;
  location : Location
}.

(** The payload built by [handleSubmit] of AddRestaurantScreen.js. *)
Definition restaurantData (d : Form.RestaurantDraft) : RestaurantData :=
  mkRestaurantData (Js.trim (Form.name d)) (Form.cuisine d) (Form.type d)
    (Js.trim (Form.description d)) (Js.trim (Form.phone d)) (Js.trim (Form.email d))
    (mkLocation (Js.trim (Form.address d)) (Form.latitude d) (Form.longitude d)).

(** [handleSubmit] of AddRestaurantScreen.js up to the call of
    [addRestaurant]: [None] when [validateForm] returned false. *)
Definition handleSubmit (d : Form.RestaurantDraft) : option RestaurantData :=
  if Form.accepted (Form.validateForm d) then Some (restaurantData d) else None.

(** The restaurant that the edit screen receives in [route.params]; any
    field may be missing. *)
Record StoredLocation : Type := mkStoredLocation {
  storedAddress : option string;
  storedLatitude : Form.value;
  storedLongitude : Form.value
}.

Record StoredRestaurant : Type := mkStoredRestaurant {
  storedName : option string;
  storedCuisine : option string;
  storedDescription : option string;
  storedPhone : option string;
  storedEmail : option string;
  storedLocation : option StoredLocation
}.

(** [field || ''] *)
Definition orEmpty (field : option string) : string := default "" field.

(** [coordinate || null] *)
Definition orNull (v : Form.value) : Form.value :=
  if Form.truthy v then v else Form.Null.

(** The initial [formData] of EditRestaurantScreen.js; that form has no
    [type], which [validateFormEdit] does not read. *)
Definition editFormData (restaurant : StoredRestaurant) : Form.RestaurantDraft :=
  Form.mkRestaurantDraft
    (orEmpty (storedName restaurant)) (orEmpty (storedCuisine restaurant)) ""
    (orEmpty (storedDescription restaurant)) (orEmpty (storedPhone restaurant))
    (orEmpty (storedEmail restaurant))
    (orEmpty (storedLocation restaurant ≫= storedAddress))
    (orNull (from_option storedLatitude Form.Null (storedLocation restaurant)))
    (orNull (from_option storedLongitude Form.Null (storedLocation restaurant))).

(** A payload read back as it was saved. *)
Definition saved (r : RestaurantData) : StoredRestaurant :=
  mkStoredRestaurant (Some (name r)) (Some (cuisine r)) (Some (description r))
    (Some (phone r)) (Some (email r))
    (Some (mkStoredLocation (Some (address (location r))) (latitude (location r))
             (longitude (location r)))).

(** [updateData] built by [handleSubmit] of EditRestaurantScreen.js, before
    the optional image. *)
Record UpdateData : Type := mkUpdateData {
  updName : string;
  updCuisine : string;
  updDescription : string;
  updPhone : string;
  updEmail : string;
  updLocation : Location
}.

Definition updateData (d : Form.RestaurantDraft) : UpdateData :=
  mkUpdateData (Js.trim (Form.name d)) (Form.cuisine d)
    (Js.trim (Form.description d)) (Js.trim (Form.phone d)) (Js.trim (Form.email d))
    (mkLocation (Js.trim (Form.address d)) (Form.latitude d) (Form.longitude d)).

Definition handleSubmitEdit (d : Form.RestaurantDraft) : option UpdateData :=
  if Form.accepted (Form.validateFormEdit d) then Some (updateData d) else None.

(** [[streetNumber, street, city, region, country].filter(Boolean).join(', ')]
    of [getCurrentLocation] in EditRestaurantScreen.js. *)
Definition fullAddress (addr : Address.AddressData) : string :=
  Js.join ", "
    (List.map Address.value
       (List.filter Js.truthy
          [Address.streetNumber addr; Address.street addr; Address.city addr;
           Address.region addr; Address.country addr])).

(** [fullAddress || prev.address] *)
Definition gpsAddress (addr : Address.AddressData) (prevAddress : string) : string :=
  if Js.nonempty (fullAddress addr) then fullAddress addr else prevAddress.

End Submit.

(** * Properties *)

(** ** Strings and patterns *)

Section StringFacts.
Import Js.

Lemma length_zero_empty (s : string) : String.length s = 0%nat -> s = "".
Proof. by destruct s. Qed.

Lemma nonempty_false (s : string) : nonempty s = false <-> s = "".
Proof. by destruct s. Qed.

Lemma drop_spaces_length (s : string) :
  (String.length (drop_spaces s) <= String.length s)%nat.
Proof.
  induction s as [|c t IH]; simpl; [lia|].
  destruct (is_space c); simpl; lia.
Qed.

Lemma drop_upper_alnum_length (s : string) :
  (String.length (drop_upper_alnum s) <= String.length s)%nat.
Proof.
  induction s as [|c t IH]; simpl; [lia|].
  destruct (is_upper_alnum c); simpl; lia.
Qed.

Lemma re_comma_pair_consuming : consuming re_comma_pair.
Proof.
  intros [|k t] rest; simpl; [discriminate|].
  destruct (is_comma k); [|discriminate].
  pose proof (drop_spaces_length t) as Hd.
  destruct (drop_spaces t) as [|k' r]; [discriminate|].
  destruct (is_comma k'); [|discriminate]. intros [= <-]. simpl in Hd. lia.
Qed.

Lemma re_plus_code_consuming : consuming re_plus_code.
Proof.
  intros s rest.
  destruct s as [|a [|b [|c [|d [|p [|e [|f r]]]]]]]; simpl; try discriminate.
  destruct (_ && _); [|discriminate]. intros [= <-].
  pose proof (drop_upper_alnum_length r) as H1.
  pose proof (drop_spaces_length (drop_upper_alnum r)) as H2.
  destruct (drop_spaces (drop_upper_alnum r)) as [|k t] eqn:E.
  - simpl. lia.
  - pose proof (drop_spaces_length t) as H3. simpl in H2.
    destruct (is_comma k).
    + lia.
    + pose proof (drop_spaces_length (String k t)) as H4. simpl in H4 |- *.
      destruct (is_space k); simpl in *; lia.
Qed.

(** Any fuel of at least the length of the text gives the same result. *)
Lemma replace_all_fuel_enough (re : string -> option string) (rep : string) :
  consuming re ->
  forall (n m : nat) (s : string),
    (String.length s <= n)%nat -> (String.length s <= m)%nat ->
    replace_all_fuel re rep n s = replace_all_fuel re rep m s.
Proof.
  intros Hre. induction n as [|n IH]; intros m s Hn Hm.
  - destruct s; [|simpl in Hn; lia]. by destruct m.
  - destruct m as [|m].
    + destruct s; [done | simpl in Hm; lia].
    + simpl. destruct s as [|c t]; [done|].
      destruct (re (String c t)) as [rest|] eqn:E.
      * apply Hre in E. simpl in *. f_equal. apply IH; lia.
      * simpl in *. f_equal. apply IH; lia.
Qed.

(** The equations of a global replacement. *)
Lemma replace_all_empty (re : string -> option string) (rep : string) :
  replace_all re rep "" = "".
Proof. reflexivity. Qed.

Lemma replace_all_step (re : string -> option string) (rep : string) (c : ascii) (t : string) :
  consuming re ->
  replace_all re rep (String c t)
  = match re (String c t) with
    | Some rest => String.append rep (replace_all re rep rest)
    | None => String c (replace_all re rep t)
    end.
Proof.
  intros Hre. unfold replace_all. simpl.
  destruct (re (String c t)) as [rest|] eqn:E.
  - apply Hre in E. simpl in E. f_equal. apply replace_all_fuel_enough; [done|lia|lia].
  - reflexivity.
Qed.

Lemma includes_tail (c : ascii) (t sub : string) :
  includes t sub = true -> includes (String c t) sub = true.
Proof. intros H. simpl. rewrite H. apply orb_true_r. Qed.

Lemma is_plus_eq (p : ascii) : is_plus p = true -> p = "+"%char.
Proof. unfold is_plus. apply Ascii.eqb_eq. Qed.

(** Every text in which the plus-code pattern occurs holds a ['+']. *)
Lemma has_plus_code_includes_plus (s : string) :
  has_plus_code s = true -> includes s "+" = true.
Proof.
  unfold has_plus_code. induction s as [|c0 t IH]; [discriminate|].
  unfold occurs; fold occurs.
  destruct (re_plus_code (String c0 t)) eqn:E; [intros _ | intros H; by apply includes_tail, IH].
  destruct t as [|b [|c [|d [|p [|e [|f r]]]]]]; simpl in E; try discriminate.
  destruct (is_plus p) eqn:Hp;
    [|destruct (is_upper_alnum c0), (is_upper_alnum b), (is_upper_alnum c),
        (is_upper_alnum d); discriminate].
  apply is_plus_eq in Hp as ->.
  do 4 apply includes_tail. reflexivity.
Qed.

End StringFacts.

(** The patterns on a few texts. *)

Example strip_plus_codes_leftmost :
  Js.strip_plus_codes "ABCDE+FG9  , x" = "Ax"
  /\ Js.strip_plus_codes "Q9J7+M2P Lahore, Q9J7+M2" = "Lahore, "
  /\ Js.strip_plus_codes "q9J7+M2P" = "q9J7+M2P".
Proof. split_and!; reflexivity. Qed.

Example collapse_commas_resumes_after_match :
  Js.collapse_commas ",,,,," = ",,,"
  /\ Js.collapse_commas "a, ,b,," = "a,b,".
Proof. split; reflexivity. Qed.

Example strip_trailing_comma_leftmost :
  Js.strip_trailing_comma "a , b , " = "a , b"
  /\ Js.strip_trailing_comma "a,," = "a,".
Proof. split; reflexivity. Qed.

Example emailTest_shapes :
  Form.emailTest "owner@grill.example" = true
  /\ Form.emailTest "x a@b..c y" = true
  /\ Form.emailTest "a@b" = false
  /\ Form.emailTest "a@.c" = false
  /\ Form.emailTest "a @b.c" = false.
Proof. split_and!; reflexivity. Qed.

(** ** The clean-up of a text without repeated commas *)

Section TidyFacts.
Import Js.

(** Without a match anywhere, a global replacement changes nothing. *)
Lemma replace_all_no_match (re : string -> option string) (rep : string) (s : string) :
  consuming re -> occurs re s = false -> replace_all re rep s = s.
Proof.
  intros Hre. induction s as [|c t IH]; [done|].
  unfold occurs; fold occurs. rewrite replace_all_step by done.
  destruct (re (String c t)); [discriminate|]. intros H. by rewrite IH.
Qed.

Lemma occurs_tail (re : string -> option string) (c : ascii) (t : string) :
  occurs re (String c t) = false -> re (String c t) = None /\ occurs re t = false.
Proof.
  unfold occurs; fold occurs. by destruct (re (String c t)).
Qed.

Lemma occurs_cons (re : string -> option string) (c : ascii) (t : string) :
  re (String c t) = None -> occurs re t = false -> occurs re (String c t) = false.
Proof. intros H1 H2. unfold occurs; fold occurs. by rewrite H1. Qed.

Lemma drop_spaces_idem (s : string) : drop_spaces (drop_spaces s) = drop_spaces s.
Proof.
  induction s as [|c t IH]; simpl; [done|].
  destruct (is_space c) eqn:E; [done|]. simpl. by rewrite E.
Qed.

Lemma is_comma_not_space (k : ascii) : is_comma k = true -> is_space k = false.
Proof. unfold is_comma. by intros ->%Ascii.eqb_eq. Qed.

(** A comma followed by [t] starts no comma pair exactly when [t] does not
    begin with a comma. *)
Lemma re_comma_pair_None (c : ascii) (t : string) :
  re_comma_pair (String c t) = None <-> is_comma c = false \/ no_leading_comma t = true.
Proof.
  unfold no_leading_comma. simpl. destruct (is_comma c).
  - destruct (drop_spaces t) as [|k r].
    + split; [by right | done].
    + destruct (is_comma k); simpl.
      * split; [discriminate | intros [H|H]; discriminate].
      * split; [by right | done].
  - split; [by left | done].
Qed.

Lemma no_pair_drop_spaces (s : string) :
  has_comma_pair s = false -> has_comma_pair (drop_spaces s) = false.
Proof.
  unfold has_comma_pair. induction s as [|c t IH]; [done|].
  intros H. simpl. destruct (is_space c); [|done].
  apply occurs_tail in H as [_ H]. by apply IH.
Qed.

Lemma no_leading_drop_spaces (s : string) :
  no_leading_comma (drop_spaces s) = no_leading_comma s.
Proof. unfold no_leading_comma. by rewrite drop_spaces_idem. Qed.

Lemma no_leading_space (c : ascii) (t : string) :
  is_space c = true -> no_leading_comma (String c t) = no_leading_comma t.
Proof. intros H. unfold no_leading_comma. simpl. by rewrite H. Qed.

Lemma no_leading_nonspace (c : ascii) (t : string) :
  is_space c = false -> no_leading_comma (String c t) = negb (is_comma c).
Proof. intros H. unfold no_leading_comma. simpl. by rewrite H. Qed.

Lemma re_trailing_space (c : ascii) (t : string) :
  is_space c = true -> re_trailing_comma (String c t) = re_trailing_comma t.
Proof. intros H. unfold re_trailing_comma. simpl. by rewrite H. Qed.

Lemma re_trailing_nonspace (c : ascii) (t : string) :
  is_space c = false -> re_trailing_comma (String c t) = is_comma c && all_spaces t.
Proof. intros H. unfold re_trailing_comma. simpl. by rewrite H. Qed.

Lemma no_leading_no_trailing (s : string) :
  no_leading_comma s = true -> re_trailing_comma s = false.
Proof.
  unfold no_leading_comma, re_trailing_comma.
  destruct (drop_spaces s) as [|k r]; [done|]. by destruct (is_comma k).
Qed.

(** *** Step 1: the leading comma *)

Lemma strip_leading_clean (s : string) :
  has_comma_pair s = false ->
  has_comma_pair (strip_leading_comma s) = false
  /\ no_leading_comma (strip_leading_comma s) = true.
Proof.
  intros HP. unfold strip_leading_comma, no_leading_comma.
  pose proof (no_pair_drop_spaces s HP) as HP'.
  destruct (drop_spaces s) as [|k t] eqn:E; [by rewrite E|].
  destruct (is_comma k) eqn:Ek.
  - apply occurs_tail in HP' as [Hre HP'].
    apply re_comma_pair_None in Hre as [Hre|Hre]; [congruence|].
    split; [by apply no_pair_drop_spaces|].
    rewrite drop_spaces_idem. exact Hre.
  - rewrite E, Ek. done.
Qed.

Lemma strip_leading_fixed (s : string) :
  no_leading_comma s = true -> strip_leading_comma s = s.
Proof.
  unfold no_leading_comma, strip_leading_comma.
  destruct (drop_spaces s) as [|k t]; [done|]. by destruct (is_comma k).
Qed.

(** *** Step 2: the trailing comma *)

Lemma strip_trailing_leading (s : string) :
  no_leading_comma s = true -> no_leading_comma (strip_trailing_comma s) = true.
Proof.
  induction s as [|c t IH]; [done|]. intros H.
  unfold strip_trailing_comma; fold strip_trailing_comma.
  destruct (re_trailing_comma (String c t)); [done|].
  destruct (is_space c) eqn:E.
  - rewrite no_leading_space in * by done. by apply IH.
  - rewrite no_leading_nonspace in * by done. done.
Qed.

Lemma strip_trailing_no_pair (s : string) :
  has_comma_pair s = false -> has_comma_pair (strip_trailing_comma s) = false.
Proof.
  unfold has_comma_pair. induction s as [|c t IH]; [done|]. intros H.
  unfold strip_trailing_comma; fold strip_trailing_comma.
  destruct (re_trailing_comma (String c t)); [done|].
  apply occurs_tail in H as [Hre H]. apply occurs_cons; [|by apply IH].
  apply re_comma_pair_None. apply re_comma_pair_None in Hre as [Hre|Hre]; [by left|].
  right. by apply strip_trailing_leading.
Qed.

Lemma strip_trailing_spaces (t : string) :
  no_leading_comma t = true -> all_spaces t = false ->
  all_spaces (strip_trailing_comma t) = false.
Proof.
  induction t as [|d t IH]; [done|]. intros Hl Ha.
  unfold strip_trailing_comma; fold strip_trailing_comma.
  rewrite (no_leading_no_trailing _ Hl). simpl in Ha |- *.
  destruct (is_space d) eqn:E; [|done]. simpl in *.
  rewrite no_leading_space in Hl by done. by apply IH.
Qed.

Lemma strip_trailing_head (t : string) :
  has_comma_pair t = false -> re_trailing_comma t = false ->
  re_trailing_comma (strip_trailing_comma t) = false.
Proof.
  unfold has_comma_pair. induction t as [|d t IH]; [done|]. intros HP Ht.
  unfold strip_trailing_comma; fold strip_trailing_comma. rewrite Ht.
  apply occurs_tail in HP as [Hre HP].
  destruct (is_space d) eqn:E.
  - rewrite re_trailing_space in * by done. by apply IH.
  - rewrite re_trailing_nonspace in * by done.
    destruct (is_comma d) eqn:Ed; [|done]. simpl in *.
    apply re_comma_pair_None in Hre as [Hre|Hre]; [congruence|].
    by apply strip_trailing_spaces.
Qed.

Lemma strip_trailing_clean (s : string) :
  has_comma_pair s = false -> has_trailing_comma (strip_trailing_comma s) = false.
Proof.
  induction s as [|c t IH]; [done|]. intros HP.
  pose proof (strip_trailing_head (String c t) HP) as Hhead.
  unfold strip_trailing_comma in *; fold strip_trailing_comma in *.
  destruct (re_trailing_comma (String c t)) eqn:Et; [done|].
  unfold has_trailing_comma; fold has_trailing_comma.
  rewrite Hhead by done. simpl.
  apply IH. unfold has_comma_pair in *. by apply occurs_tail in HP as [_ HP].
Qed.

Lemma strip_trailing_fixed (s : string) :
  has_trailing_comma s = false -> strip_trailing_comma s = s.
Proof.
  induction s as [|c t IH]; [done|].
  unfold has_trailing_comma; fold has_trailing_comma.
  intros [H1 H2]%orb_false_iff.
  unfold strip_trailing_comma; fold strip_trailing_comma.
  rewrite H1. by rewrite IH.
Qed.

(** *** Step 3: [trim] *)

Lemma no_trailing_drop_spaces (s : string) :
  has_trailing_comma s = false -> has_trailing_comma (drop_spaces s) = false.
Proof.
  induction s as [|c t IH]; [done|]. intros H. simpl.
  destruct (is_space c); [|done].
  unfold has_trailing_comma in H; fold has_trailing_comma in H.
  apply orb_false_iff in H as [_ H]. by apply IH.
Qed.

Lemma trimEnd_cons (c : ascii) (t : string) :
  trimEnd (String c t) = if all_spaces (String c t) then "" else String c (trimEnd t).
Proof. reflexivity. Qed.

Lemma all_spaces_trimEnd (s : string) : all_spaces (trimEnd s) = all_spaces s.
Proof.
  induction s as [|c t IH]; [done|]. rewrite trimEnd_cons.
  destruct (all_spaces (String c t)) eqn:E; [done|].
  simpl in *. by rewrite IH.
Qed.

Lemma all_spaces_drop (s : string) : all_spaces s = true -> drop_spaces s = "".
Proof.
  induction s as [|c t IH]; [done|]. simpl.
  intros [-> H]%andb_true_iff. by apply IH.
Qed.

Lemma drop_spaces_trimEnd (s : string) :
  drop_spaces (trimEnd s) = trimEnd (drop_spaces s).
Proof.
  induction s as [|c t IH]; [done|]. rewrite trimEnd_cons.
  destruct (all_spaces (String c t)) eqn:E.
  - by rewrite (all_spaces_drop _ E).
  - cbn [drop_spaces]. destruct (is_space c) eqn:Ec; [exact IH|].
    by rewrite trimEnd_cons, E.
Qed.

Lemma no_leading_trimEnd (s : string) :
  no_leading_comma s = true -> no_leading_comma (trimEnd s) = true.
Proof.
  unfold no_leading_comma. rewrite drop_spaces_trimEnd.
  destruct (drop_spaces s) as [|k r]; [done|]. rewrite trimEnd_cons.
  by destruct (all_spaces (String k r)).
Qed.

Lemma re_trailing_trimEnd (s : string) :
  re_trailing_comma (trimEnd s) = re_trailing_comma s.
Proof.
  unfold re_trailing_comma. rewrite drop_spaces_trimEnd.
  destruct (drop_spaces s) as [|k r] eqn:E; [done|]. rewrite trimEnd_cons.
  destruct (all_spaces (String k r)) eqn:Ea.
  - simpl in Ea. apply andb_true_iff in Ea as [Ek _].
    destruct (is_comma k) eqn:Ec; [|done]. apply is_comma_not_space in Ec. congruence.
  - by rewrite all_spaces_trimEnd.
Qed.

Lemma no_trailing_trimEnd (s : string) :
  has_trailing_comma s = false -> has_trailing_comma (trimEnd s) = false.
Proof.
  induction s as [|c t IH]; [done|].
  unfold has_trailing_comma at 1; fold has_trailing_comma.
  intros [H1 H2]%orb_false_iff.
  pose proof (re_trailing_trimEnd (String c t)) as Hre.
  rewrite trimEnd_cons in *. destruct (all_spaces (String c t)); [done|].
  unfold has_trailing_comma; fold has_trailing_comma.
  rewrite Hre, H1. simpl. by apply IH.
Qed.

Lemma no_pair_trimEnd (s : string) :
  has_comma_pair s = false -> has_comma_pair (trimEnd s) = false.
Proof.
  unfold has_comma_pair. induction s as [|c t IH]; [done|]. intros H.
  rewrite trimEnd_cons. destruct (all_spaces (String c t)); [done|].
  apply occurs_tail in H as [Hre H]. apply occurs_cons; [|by apply IH].
  apply re_comma_pair_None. apply re_comma_pair_None in Hre as [Hre|Hre]; [by left|].
  right. by apply no_leading_trimEnd.
Qed.

Lemma trimEnd_idem (s : string) : trimEnd (trimEnd s) = trimEnd s.
Proof.
  induction s as [|c t IH]; [done|]. rewrite trimEnd_cons.
  destruct (all_spaces (String c t)) eqn:E; [done|].
  rewrite trimEnd_cons. simpl in *. rewrite all_spaces_trimEnd, E. by rewrite IH.
Qed.

Lemma trim_idem (s : string) : trim (trim s) = trim s.
Proof.
  unfold trim. by rewrite drop_spaces_trimEnd, drop_spaces_idem, trimEnd_idem.
Qed.

(** *** The three steps together *)

(** A text with no repeated commas is tidy once its boundary commas and
    the surrounding white space are gone. *)
Lemma boundaryCleaned_tidy (s : string) :
  has_comma_pair s = false ->
  Address.tidy s = Address.boundaryCleaned s
  /\ Address.tidy (Address.boundaryCleaned s) = Address.boundaryCleaned s.
Proof.
  intros HP.
  assert (Hcollapse : forall u, has_comma_pair u = false -> collapse_commas u = u).
  { intros u Hu. apply replace_all_no_match; [apply re_comma_pair_consuming | exact Hu]. }
  split.
  { unfold Address.tidy, Address.boundaryCleaned. by rewrite Hcollapse. }
  destruct (strip_leading_clean s HP) as [HP1 HL1].
  set (s1 := strip_leading_comma s) in *.
  pose proof (strip_trailing_no_pair s1 HP1) as HP2.
  pose proof (strip_trailing_leading s1 HL1) as HL2.
  pose proof (strip_trailing_clean s1 HP1) as HT2.
  set (s2 := strip_trailing_comma s1) in *.
  assert (HP3 : has_comma_pair (trim s2) = false)
    by (unfold trim; by apply no_pair_trimEnd, no_pair_drop_spaces).
  assert (HL3 : no_leading_comma (trim s2) = true)
    by (unfold trim; apply no_leading_trimEnd; by rewrite no_leading_drop_spaces).
  assert (HT3 : has_trailing_comma (trim s2) = false)
    by (unfold trim; by apply no_trailing_trimEnd, no_trailing_drop_spaces).
  unfold Address.boundaryCleaned. fold s1. fold s2.
  unfold Address.tidy.
  rewrite (Hcollapse _ HP3), (strip_leading_fixed _ HL3), (strip_trailing_fixed _ HT3).
  apply trim_idem.
Qed.

End TidyFacts.

(** ** Address normalisation *)

Section AddressFacts.
Import Address.

Lemma differs_true (x y : option string) : differs x y = true <-> x <> y.
Proof.
  unfold differs. case_bool_decide; simpl; split; intros; congruence.
Qed.

Lemma truthy_Some (o : option string) :
  Js.truthy o = true <-> exists s, o = Some s /\ s <> "".
Proof.
  destruct o as [s|]; simpl; split.
  - intros H. exists s. split; [reflexivity|]. intros ->. discriminate.
  - intros (s' & [= <-] & Hne). destruct s; [done | reflexivity].
  - discriminate.
  - intros (s' & H & _). discriminate.
Qed.

(** Step 1 pushes [name] under the four conditions of its [if], and
    nothing otherwise. *)
Lemma step1_cases (a : AddressData) :
  (exists n, name a = Some n /\ n <> "" /\ Js.includes n "+" = false
             /\ name a <> city a /\ name a <> subregion a /\ step1 a = [n])
  \/ (step1 a = []
      /\ ~ exists n, name a = Some n /\ n <> "" /\ Js.includes n "+" = false
                     /\ name a <> city a /\ name a <> subregion a).
Proof.
  unfold step1.
  destruct (Js.truthy (name a)) eqn:Ht; simpl.
  - apply truthy_Some in Ht as (n & Hn & Hne). rewrite Hn. simpl.
    destruct (Js.includes n "+") eqn:Hi; simpl.
    { right. split; [done|]. intros (n' & [= <-] & _ & Hi' & _). congruence. }
    destruct (differs (Some n) (city a)) eqn:Hc; simpl.
    2:{ right. split; [done|]. intros (n' & _ & _ & _ & Hc' & _).
        apply differs_true in Hc'. congruence. }
    destruct (differs (Some n) (subregion a)) eqn:Hs; simpl.
    2:{ right. split; [done|]. intros (n' & _ & _ & _ & _ & Hs').
        apply differs_true in Hs'. congruence. }
    left. exists n. apply differs_true in Hc, Hs. by split_and!.
  - right. split; [done|]. intros (n & Hn & Hne & _).
    assert (Js.truthy (name a) = true) by (apply truthy_Some; eauto). congruence.
Qed.

End AddressFacts.

Example formatAddress_null : Address.formatAddress None = "".
Proof. reflexivity. Qed.

Example formatAddress_city_only :
  Address.formatAddress
    (Some (Address.mkAddressData None None None None (Some "Lahore") None None None None))
  = "Lahore".
Proof. reflexivity. Qed.

Example formatAddress_plus_code_name :
  Address.formatAddress
    (Some (Address.mkAddressData (Some "Q9J7+M2P") None None None (Some "Lahore") None None
             (Some "Q9J7+M2P, Mall Road , , Lahore, Pakistan,") None))
  = "Mall Road , Lahore, Pakistan".
Proof. reflexivity. Qed.

(** C3 (the behaviour of the code where the claim fails).  Step 1 appends
    [name] as the first address part exactly when [name] is present and
    not empty, holds no ['+'] at all, and differs from both [city] and
    [subregion]; otherwise the parts are those of steps 2 to 7.  A name in
    which the plus-code pattern occurs holds a ['+'], so it is never
    appended; but the test [!name.includes('+')] refuses more than the
    plus codes that its comment, "Use name if it's not a plus code", and
    the pattern of the fallback branch speak of. *)
Theorem name_appended_iff_no_plus (a : Address.AddressData) :
  (Address.nameAppended a <->
     exists n, Address.name a = Some n /\ n <> "" /\ Js.includes n "+" = false
               /\ Address.name a <> Address.city a
               /\ Address.name a <> Address.subregion a)
  /\ (~ Address.nameAppended a -> Address.addressParts a = Address.laterParts a)
  /\ (forall n, Address.name a = Some n -> Js.has_plus_code n = true ->
                ~ Address.nameAppended a).
Proof.
  assert (Hiff : Address.nameAppended a <->
     exists n, Address.name a = Some n /\ n <> "" /\ Js.includes n "+" = false
               /\ Address.name a <> Address.city a
               /\ Address.name a <> Address.subregion a).
  { unfold Address.nameAppended, Address.addressParts. split.
    - intros (n & Hn & Hparts).
      destruct (step1_cases a) as [(n' & H1 & H2 & H3 & H4 & H5 & _)|[H0 _]]; [eauto 10|].
      rewrite H0 in Hparts. simpl in Hparts.
      apply (f_equal (@List.length string)) in Hparts. simpl in Hparts. lia.
    - intros Hq.
      destruct (step1_cases a) as [(n & H1 & _ & _ & _ & _ & H6)|[_ Hno]]; [|by destruct Hno].
      exists n. by rewrite H6. }
  split_and!; [exact Hiff | |].
  - intros Hno. unfold Address.addressParts.
    destruct (step1_cases a) as [(n & H1 & H2 & H3 & H4 & H5 & _)|[-> _]]; [|done].
    destruct Hno. apply Hiff. eauto 10.
  - intros n Hn Hplus Happ. apply Hiff in Happ as (n' & Hn' & _ & Hi & _).
    apply has_plus_code_includes_plus in Hplus. congruence.
Qed.

(** C3 (the failing input).  The name "C++ Cafe" is present, the
    plus-code pattern does not occur in it, and it differs from [city]
    and [subregion]; step 1 does not append it, and the address loses the
    name.  The fallback branch, which removes plus codes by the pattern,
    keeps the same name when it comes in [formattedAddress]. *)
Lemma name_with_plus_not_appended :
  let a := Address.mkAddressData (Some "C++ Cafe") None None None (Some "Lahore")
             None None None None in
  let b := Address.mkAddressData None None None None None
             None None (Some "C++ Cafe, Lahore") None in
  Js.has_plus_code "C++ Cafe" = false
  /\ Address.name a <> Address.city a
  /\ Address.name a <> Address.subregion a
  /\ Address.addressParts a = ["Lahore"]
  /\ ~ Address.nameAppended a
  /\ Address.formatAddress (Some a) = "Lahore"
  /\ Address.formatAddress (Some b) = "C++ Cafe, Lahore".
Proof.
  split_and!; try done.
  intros (n & [= <-] & H). vm_compute in H. discriminate.
Qed.

(** C5.  For an address object, [formatAddress] never returns the empty
    string; when steps 1 to 7 yield no part and there is no usable
    [formattedAddress], as for the empty object, it returns exactly
    "Location detected". *)
Theorem formatAddress_never_empty (a : Address.AddressData) :
  Address.formatAddress (Some a) <> ""
  /\ (Address.addressParts a = [] -> Address.usableFormatted a = false ->
      Address.formatAddress (Some a) = "Location detected")
  /\ Address.formatAddress (Some Address.empty) = "Location detected".
Proof.
  split_and!.
  - simpl. unfold Address.finish.
    destruct (Address.tidy (Address.candidate a)) eqn:E; simpl; discriminate.
  - intros Hparts Hfa. simpl. unfold Address.finish, Address.candidate.
    rewrite Hparts. simpl. unfold Address.usableFormatted in Hfa.
    destruct (Address.formattedAddress a) as [fa|]; simpl; [|reflexivity].
    destruct (Js.nonempty fa); simpl; [|reflexivity].
    destruct (Address.cleanFormatted fa) as [|c t] eqn:E; simpl; [reflexivity|].
    by rewrite Hfa.
  - reflexivity.
Qed.

Lemma formatAddress_never_empty_witness :
  let a := Address.mkAddressData None None None None None None None (Some ",,,,,") None in
  Address.addressParts a = [] /\ Address.usableFormatted a = false
  /\ Address.formatAddress (Some a) = "Location detected".
Proof.
  split; [reflexivity|]. split; [reflexivity|].
  apply (formatAddress_never_empty
           (Address.mkAddressData None None None None None None None (Some ",,,,,") None));
    reflexivity.
Defined.

(** C8 (as the code has it).  When steps 1 to 7 appended fewer than 3
    parts and a non-empty [formattedAddress] is supplied, the cleaned
    [formattedAddress] replaces the joined parts exactly when it is
    strictly longer, and what [formatAddress] returns is the final
    clean-up of the text chosen, or "Location detected" when that is
    empty.  When every structured field is absent, this is the final
    clean-up of the cleaned [formattedAddress]; if moreover
    [formattedAddress] holds no plus code and no repeated commas, it is
    [formattedAddress] without its boundary commas and surrounding white
    space, or "Location detected" when nothing is left. *)
Theorem formatAddress_fallback (a : Address.AddressData) (fa : string) :
  Address.formattedAddress a = Some fa -> fa <> "" ->
  (length (Address.addressParts a) < 3)%nat ->
  let joined := Js.join ", " (Address.addressParts a) in
  let cleaned := Address.cleanFormatted fa in
  Address.formatAddress (Some a)
  = Address.finish (if (String.length joined <? String.length cleaned)%nat
                    then cleaned else joined)
  /\ (Address.onlyFormatted a ->
      Address.formatAddress (Some a) = Address.finish cleaned)
  /\ (Address.onlyFormatted a ->
      Js.has_plus_code fa = false -> Js.has_comma_pair fa = false ->
      Address.formatAddress (Some a)
      = if Js.nonempty (Address.boundaryCleaned fa)
        then Address.boundaryCleaned fa else "Location detected").
Proof.
  intros Hfa Hne Hlen joined cleaned.
  assert (Hc : Address.candidate a
               = if (String.length joined <? String.length cleaned)%nat
                 then cleaned else joined).
  { unfold Address.candidate. rewrite Hfa. simpl.
    apply Nat.ltb_lt in Hlen. rewrite Hlen.
    destruct fa; [done|]. reflexivity. }
  assert (Honly : Address.onlyFormatted a ->
                  Address.formatAddress (Some a) = Address.finish cleaned).
  { intros Honly. simpl. rewrite Hc.
    assert (joined = "") as -> by (subst joined; rewrite Honly; reflexivity).
    destruct (Nat.ltb_spec (String.length "") (String.length cleaned)) as [|Hle]; [done|].
    simpl in Hle. rewrite (length_zero_empty cleaned); [done | lia]. }
  split_and!.
  - simpl. by rewrite Hc.
  - exact Honly.
  - intros Ho Hplus Hpair. rewrite (Honly Ho). subst cleaned.
    unfold Address.cleanFormatted, Js.strip_plus_codes.
    rewrite (replace_all_no_match Js.re_plus_code "" fa re_plus_code_consuming Hplus).
    destruct (boundaryCleaned_tidy fa Hpair) as [-> Htidy].
    unfold Address.finish. by rewrite Htidy.
Qed.

Lemma formatAddress_fallback_witness :
  let fa := ", Mall Road, Lahore ," in
  let a := Address.mkAddressData None None None None None None None (Some fa) None in
  Address.formattedAddress a = Some fa /\ fa <> ""
  /\ (length (Address.addressParts a) < 3)%nat
  /\ Address.onlyFormatted a
  /\ Js.has_plus_code fa = false /\ Js.has_comma_pair fa = false
  /\ Address.formatAddress (Some a) = "Mall Road, Lahore".
Proof.
  intros fa a.
  assert (H1 : Address.formattedAddress a = Some fa) by reflexivity.
  assert (H2 : fa <> "") by discriminate.
  assert (H3 : (length (Address.addressParts a) < 3)%nat) by (simpl; lia).
  assert (H4 : Address.onlyFormatted a) by reflexivity.
  assert (H5 : Js.has_plus_code fa = false) by reflexivity.
  assert (H6 : Js.has_comma_pair fa = false) by reflexivity.
  split_and!; try assumption.
  destruct (formatAddress_fallback a fa H1 H2 H3) as (_ & _ & H).
  rewrite (H H4 H5 H6). reflexivity.
Defined.

(** C8 (the claim as worded fails).  With no structured field and
    [formattedAddress] "Mall Road,,,Lahore" the cleaned string is
    "Mall Road,,Lahore", strictly longer than the empty result of steps
    1 to 7, but [formatAddress] returns "Mall Road,Lahore", which is
    neither the cleaned string nor [formattedAddress] without its boundary
    commas.  With a [formattedAddress] of one space it returns
    "Location detected". *)
Lemma formatAddress_fallback_not_cleaned :
  let fa := "Mall Road,,,Lahore" in
  let a := Address.mkAddressData None None None None None None None (Some fa) None in
  let b := Address.mkAddressData None None None None None None None (Some " ") None in
  (length (Address.addressParts a) < 3)%nat
  /\ Js.has_plus_code fa = false
  /\ Address.cleanFormatted fa = "Mall Road,,Lahore"
  /\ (String.length (Js.join ", " (Address.addressParts a))
      < String.length (Address.cleanFormatted fa))%nat
  /\ Address.formatAddress (Some a) = "Mall Road,Lahore"
  /\ Address.formatAddress (Some a) <> Address.cleanFormatted fa
  /\ Address.formatAddress (Some b) = "Location detected".
Proof.
  split_and!; try reflexivity; try (vm_compute; lia); vm_compute; discriminate.
Qed.

(** C9.  For city "Lahore", subregion "Lahore", region "Punjab" and
    country "Pakistan", the subregion is skipped, city, region and country
    are appended, and [formatAddress] returns "Lahore, Punjab, Pakistan". *)
Theorem formatAddress_lahore :
  let a := Address.mkAddressData None None None (Some "Lahore") (Some "Lahore")
             (Some "Punjab") (Some "Pakistan") None None in
  Address.step3 a = []
  /\ Address.addressParts a = ["Lahore"; "Punjab"; "Pakistan"]
  /\ Address.formatAddress (Some a) = "Lahore, Punjab, Pakistan".
Proof. split_and!; reflexivity. Qed.

(** ** Form validation *)

Section FormFacts.
Import Form.

(** The location passes exactly for two finite numbers, neither of them
    zero, within the two ranges. *)
Lemma locationRefused_false (latitude longitude : value) :
  locationRefused latitude longitude = false <->
  exists x y : Q,
    latitude = Num (Finite x) /\ longitude = Num (Finite y)
    /\ ~ (x == 0)%Q /\ ~ (y == 0)%Q
    /\ (-90 <= x)%Q /\ (x <= 90)%Q /\ (-180 <= y)%Q /\ (y <= 180)%Q.
Proof.
  unfold locationRefused. split.
  - intros H. repeat (apply orb_false_iff in H as [H ?]).
    destruct latitude as [|[|b1|x]|s1]; try discriminate;
      destruct longitude as [|[|b2|y]|s2]; try discriminate;
      simpl in *; try (destruct b1; discriminate); try (destruct b2; discriminate).
    exists x, y.
    repeat match goal with
           | Hn : negb _ = false |- _ => apply negb_false_iff in Hn
           end.
    repeat match goal with
           | Hn : Qle_bool _ _ = true |- _ => apply Qle_bool_iff in Hn
           end.
    split_and!; try done.
    + intros E. apply Qeq_bool_iff in E. rewrite E in *. discriminate.
    + intros E. apply Qeq_bool_iff in E. rewrite E in *. discriminate.
  - intros (x & y & -> & -> & Hx & Hy & H1 & H2 & H3 & H4). simpl.
    apply Qle_bool_iff in H1, H2, H3, H4. rewrite H1, H2, H3, H4. simpl.
    destruct (Qeq_bool x 0) eqn:Ex; [apply Qeq_bool_iff in Ex; done|].
    destruct (Qeq_bool y 0) eqn:Ey; [apply Qeq_bool_iff in Ey; done|].
    reflexivity.
Qed.

Lemma checkContact_accepted (d : RestaurantDraft) (next : verdict) :
  checkContact d next = Accepted <->
  blank (description d) = false /\ blank (phone d) = false /\ blank (email d) = false
  /\ emailTest (email d) = true /\ blank (address d) = false /\ next = Accepted.
Proof.
  unfold checkContact.
  destruct (blank (description d)), (blank (phone d)), (blank (email d)),
    (emailTest (email d)), (blank (address d)); simpl;
    split; try discriminate; try tauto; intros (? & ? & ? & ? & ? & ?); discriminate.
Qed.

End FormFacts.



(** ** Submission and editing *)

Section SubmitFacts.
Import Js Form.

Lemma all_spaces_head (c : ascii) (t : string) :
  all_spaces (String c t) = true -> is_space c = true.
Proof. simpl. by intros [? _]%andb_true_iff. Qed.

Lemma re_host_lookahead_trimEnd (t : string) :
  match trimEnd t with
  | String dot (String d _) => Ascii.eqb dot "." && negb (is_space d)
  | _ => false
  end
  = match t with
    | String dot (String d _) => Ascii.eqb dot "." && negb (is_space d)
    | _ => false
    end.
Proof.
  destruct t as [|dot [|d rest]]; [done | |].
  - rewrite trimEnd_cons. by destruct (all_spaces _).
  - rewrite trimEnd_cons. destruct (all_spaces (String dot (String d rest))) eqn:E1.
    + simpl in E1. apply andb_true_iff in E1 as [_ [Hd _]%andb_true_iff].
      by rewrite Hd, andb_false_r.
    + rewrite trimEnd_cons. destruct (all_spaces (String d rest)) eqn:E2; [|done].
      apply all_spaces_head in E2. by rewrite E2, andb_false_r.
Qed.

Lemma re_host_trimEnd (r : string) : re_host (trimEnd r) = re_host r.
Proof.
  induction r as [|c t IH]; [done|]. rewrite trimEnd_cons.
  destruct (all_spaces (String c t)) eqn:E.
  - apply all_spaces_head in E. simpl. by rewrite E.
  - cbn [re_host]. by rewrite re_host_lookahead_trimEnd, IH.
Qed.

Lemma space_not_at (c : ascii) : is_space c = true -> Ascii.eqb c "@" = false.
Proof. destruct (Ascii.eqb_spec c "@") as [->|]; [discriminate | done]. Qed.

Lemma emailTest_lookahead_trimEnd (t : string) :
  match trimEnd t with
  | String at_ r => Ascii.eqb at_ "@" && re_host r
  | EmptyString => false
  end
  = match t with
    | String at_ r => Ascii.eqb at_ "@" && re_host r
    | EmptyString => false
    end.
Proof.
  destruct t as [|a r]; [done|]. rewrite trimEnd_cons.
  destruct (all_spaces (String a r)) eqn:E.
  - apply all_spaces_head in E. by rewrite (space_not_at a E).
  - by rewrite re_host_trimEnd.
Qed.

Lemma emailTest_spaces (s : string) : all_spaces s = true -> emailTest s = false.
Proof.
  induction s as [|c t IH]; [done|]. simpl.
  intros [Hc Ht]%andb_true_iff. rewrite Hc. simpl. by apply IH.
Qed.

Lemma emailTest_trimEnd (s : string) : emailTest (trimEnd s) = emailTest s.
Proof.
  induction s as [|c t IH]; [done|]. rewrite trimEnd_cons.
  destruct (all_spaces (String c t)) eqn:E.
  - by rewrite (emailTest_spaces _ E).
  - cbn [emailTest]. by rewrite emailTest_lookahead_trimEnd, IH.
Qed.

Lemma emailTest_drop_spaces (s : string) : emailTest (drop_spaces s) = emailTest s.
Proof.
  induction s as [|c t IH]; [done|]. cbn [drop_spaces].
  destruct (is_space c) eqn:E; [|done]. rewrite IH. simpl. by rewrite E.
Qed.

(** The email test looks at what [trim] keeps. *)
Lemma emailTest_trim (s : string) : emailTest (trim s) = emailTest s.
Proof. unfold trim. by rewrite emailTest_trimEnd, emailTest_drop_spaces. Qed.

Lemma blank_trim (s : string) : blank (trim s) = blank s.
Proof. unfold blank. by rewrite trim_idem. Qed.

Lemma blank_false (s : string) : blank s = false <-> trim s <> "".
Proof. unfold blank. destruct (trim s); simpl; split; congruence. Qed.

Lemma validateForm_accepted (d : RestaurantDraft) :
  validateForm d = Accepted <->
  blank (name d) = false /\ blank (cuisine d) = false /\ blank (type d) = false
  /\ blank (description d) = false /\ blank (phone d) = false /\ blank (email d) = false
  /\ emailTest (email d) = true /\ blank (address d) = false
  /\ locationRefused (latitude d) (longitude d) = false.
Proof.
  unfold validateForm.
  destruct (blank (name d)); [split; [discriminate | intros (? & _); discriminate]|].
  destruct (blank (cuisine d)); [split; [discriminate | intros (_ & ? & _); discriminate]|].
  destruct (blank (type d)); [split; [discriminate | intros (_ & _ & ? & _); discriminate]|].
  rewrite checkContact_accepted.
  destruct (locationRefused (latitude d) (longitude d));
    split; intros H; decompose [and] H; split_and!; done.
Qed.

Lemma validateFormEdit_accepted (d : RestaurantDraft) :
  validateFormEdit d = Accepted <->
  blank (name d) = false /\ blank (cuisine d) = false
  /\ blank (description d) = false /\ blank (phone d) = false /\ blank (email d) = false
  /\ emailTest (email d) = true /\ blank (address d) = false
  /\ locationRefused (latitude d) (longitude d) = false.
Proof.
  unfold validateFormEdit.
  destruct (blank (name d)); [split; [discriminate | intros (? & _); discriminate]|].
  destruct (blank (cuisine d)); [split; [discriminate | intros (_ & ? & _); discriminate]|].
  rewrite checkContact_accepted.
  destruct (locationRefused (latitude d) (longitude d));
    split; intros H; decompose [and] H; split_and!; done.
Qed.

Lemma accepted_true (v : verdict) : accepted v = true <-> v = Accepted.
Proof. destruct v; simpl; split; congruence. Qed.

Lemma locationRefused_truthy (lat lng : value) :
  locationRefused lat lng = false -> truthy lat = true /\ truthy lng = true.
Proof.
  unfold locationRefused. intros H. repeat (apply orb_false_iff in H as [H ?]).
  split; by apply negb_false_iff.
Qed.

Lemma locationRefused_orNull (lat lng : value) :
  locationRefused (Submit.orNull lat) (Submit.orNull lng) = locationRefused lat lng.
Proof.
  unfold Submit.orNull.
  destruct (truthy lat) eqn:E1, (truthy lng) eqn:E2; try reflexivity;
    unfold locationRefused; cbn [truthy negb orb]; rewrite ?E1, ?E2; cbn [negb orb];
    by rewrite ?orb_true_r.
Qed.

(** [join] of strings that are not empty is empty for the empty list only. *)
Lemma join_nonempty (sep : string) (parts : list string) :
  Forall (fun p => nonempty p = true) parts ->
  nonempty (join sep parts) = match parts with [] => false | _ => true end.
Proof.
  destruct parts as [|p rest]; [done|]. intros [Hp _]%Forall_cons.
  unfold join. simpl. destruct rest; destruct p; done.
Qed.

End SubmitFacts.

(** X14.  Every payload that the add screen hands to [addRestaurant] has
    a name, description, phone, email and address that are not empty and
    carry no surrounding white space, a cuisine and a type that are not
    blank, an email that still passes the email test after trimming, and
    coordinates that are finite, not 0 and within [-90,90] and
    [-180,180]. *)
Theorem submitted_payload_is_clean (d : Form.RestaurantDraft) (r : Submit.RestaurantData) :
  Submit.handleSubmit d = Some r ->
  Forall (fun field => field <> "" /\ Js.trim field = field)
         [Submit.name r; Submit.description r; Submit.phone r; Submit.email r;
          Submit.address (Submit.location r)]
  /\ Form.blank (Submit.cuisine r) = false /\ Form.blank (Submit.type r) = false
  /\ Form.emailTest (Submit.email r) = true
  /\ exists x y : Q,
       Submit.latitude (Submit.location r) = Form.Num (Form.Finite x)
       /\ Submit.longitude (Submit.location r) = Form.Num (Form.Finite y)
       /\ ~ (x == 0)%Q /\ ~ (y == 0)%Q
       /\ (-90 <= x)%Q /\ (x <= 90)%Q /\ (-180 <= y)%Q /\ (y <= 180)%Q.
Proof.
  unfold Submit.handleSubmit.
  destruct (Form.accepted (Form.validateForm d)) eqn:Hacc; [|discriminate].
  intros [= <-]. apply accepted_true, validateForm_accepted in Hacc.
  destruct Hacc as (Hn & Hc & Ht & Hd & Hp & He & Het & Ha & Hl).
  cbn [Submit.restaurantData Submit.name Submit.description Submit.phone Submit.email
       Submit.cuisine Submit.type Submit.location Submit.address Submit.latitude
       Submit.longitude].
  split_and!; try done.
  - repeat constructor; try apply trim_idem; by apply blank_false.
  - by rewrite emailTest_trim.
  - by apply locationRefused_false.
Qed.

Lemma submitted_payload_is_clean_witness :
  let d := Form.mkRestaurantDraft "  Grill House " "BBQ" "Casual Dining" " Grill on the canal "
             " 0300-1234567" " owner@grill.example  " " 1 Canal Road "
             (Form.Num (Form.Finite (315 # 10))) (Form.Num (Form.Finite (743 # 10))) in
  exists r,
    Submit.handleSubmit d = Some r
    /\ Submit.name r = "Grill House"
    /\ Submit.email r = "owner@grill.example"
    /\ Form.emailTest (Submit.email r) = true.
Proof.
  intros d. eexists. split; [reflexivity|].
  match goal with
  | |- Submit.name ?r = _ /\ _ =>
      destruct (submitted_payload_is_clean d r eq_refl) as (_ & _ & _ & Hemail & _)
  end.
  split; [reflexivity|]. split; [reflexivity | exact Hemail].
Defined.

(** X15.  A restaurant saved from the add screen and read back as saved
    can be saved again from the edit screen without touching the form:
    the edit form passes its validation and submits the same name,
    cuisine, description, phone, email and location. *)
Theorem resave_unchanged (d : Form.RestaurantDraft) (r : Submit.RestaurantData) :
  Submit.handleSubmit d = Some r ->
  Submit.handleSubmitEdit (Submit.editFormData (Submit.saved r))
  = Some (Submit.mkUpdateData (Submit.name r) (Submit.cuisine r) (Submit.description r)
            (Submit.phone r) (Submit.email r) (Submit.location r)).
Proof.
  unfold Submit.handleSubmit.
  destruct (Form.accepted (Form.validateForm d)) eqn:Hacc; [|discriminate].
  intros [= <-]. apply accepted_true, validateForm_accepted in Hacc.
  destruct Hacc as (Hn & Hc & Ht & Hd & Hp & He & Het & Ha & Hl).
  destruct (locationRefused_truthy _ _ Hl) as [Hlat Hlng].
  unfold Submit.handleSubmitEdit.
  assert (Hedit : Form.validateFormEdit (Submit.editFormData (Submit.saved (Submit.restaurantData d)))
                  = Form.Accepted).
  { apply validateFormEdit_accepted.
    cbn [Submit.editFormData Submit.saved Submit.restaurantData Submit.orEmpty
         Submit.storedName Submit.storedCuisine Submit.storedDescription Submit.storedPhone
         Submit.storedEmail Submit.storedLocation Submit.storedAddress
         Submit.storedLatitude Submit.storedLongitude
         Submit.name Submit.cuisine Submit.description Submit.phone Submit.email
         Submit.location Submit.address Submit.latitude Submit.longitude
         Form.name Form.cuisine Form.description Form.phone Form.email Form.address
         Form.latitude Form.longitude from_option mbind option_bind id].
    rewrite !blank_trim, emailTest_trim, locationRefused_orNull. by split_and!. }
  rewrite Hedit. cbn [Form.accepted]. f_equal.
  unfold Submit.updateData.
  cbn [Submit.editFormData Submit.saved Submit.restaurantData Submit.orEmpty
       Submit.storedName Submit.storedCuisine Submit.storedDescription Submit.storedPhone
       Submit.storedEmail Submit.storedLocation Submit.storedAddress
       Submit.storedLatitude Submit.storedLongitude
       Submit.name Submit.cuisine Submit.description Submit.phone Submit.email
       Submit.location Submit.address Submit.latitude Submit.longitude
       Form.name Form.cuisine Form.description Form.phone Form.email Form.address
       Form.latitude Form.longitude from_option mbind option_bind id].
  rewrite !trim_idem. unfold Submit.orNull. by rewrite Hlat, Hlng.
Qed.

Lemma resave_unchanged_witness :
  let d := Form.mkRestaurantDraft "  Grill House " "BBQ" "Casual Dining" " Grill on the canal "
             " 0300-1234567" " owner@grill.example  " " 1 Canal Road "
             (Form.Num (Form.Finite (315 # 10))) (Form.Num (Form.Finite (743 # 10))) in
  exists r u,
    Submit.handleSubmit d = Some r
    /\ Submit.handleSubmitEdit (Submit.editFormData (Submit.saved r)) = Some u
    /\ Submit.updName u = "Grill House"
    /\ Submit.updLocation u = Submit.location r.
Proof.
  intros d. eexists. eexists. split; [reflexivity|].
  split; [apply (resave_unchanged d); reflexivity|].
  split; reflexivity.
Defined.

Section EditFacts.
Import Form.

Lemma orEmpty_filled (field : option string) :
  blank (Submit.orEmpty field) = false -> exists s, field = Some s /\ blank s = false.
Proof. destruct field as [s|]; [eauto | discriminate]. Qed.

Lemma orNull_finite (v : value) (x : Q) :
  Submit.orNull v = Num (Finite x) -> v = Num (Finite x).
Proof. unfold Submit.orNull. destruct (truthy v); [done | discriminate]. Qed.

End EditFacts.

(** X16.  The edit screen submits only a restaurant that was stored with
    a name, cuisine, description, phone, email and address that are not
    blank and with a location whose coordinates are finite, not 0 and in
    range: a restaurant stored without a location, or with latitude or
    longitude 0, cannot be saved again as it is. *)
Theorem edit_needs_stored_location (restaurant : Submit.StoredRestaurant)
        (u : Submit.UpdateData) :
  Submit.handleSubmitEdit (Submit.editFormData restaurant) = Some u ->
  (exists loc x y,
      Submit.storedLocation restaurant = Some loc
      /\ Submit.storedLatitude loc = Form.Num (Form.Finite x)
      /\ Submit.storedLongitude loc = Form.Num (Form.Finite y)
      /\ ~ (x == 0)%Q /\ ~ (y == 0)%Q
      /\ (-90 <= x)%Q /\ (x <= 90)%Q /\ (-180 <= y)%Q /\ (y <= 180)%Q
      /\ exists a, Submit.storedAddress loc = Some a /\ Form.blank a = false)
  /\ Forall (fun field => exists s, field = Some s /\ Form.blank s = false)
       [Submit.storedName restaurant; Submit.storedCuisine restaurant;
        Submit.storedDescription restaurant; Submit.storedPhone restaurant;
        Submit.storedEmail restaurant].
Proof.
  unfold Submit.handleSubmitEdit.
  destruct (Form.accepted (Form.validateFormEdit (Submit.editFormData restaurant))) eqn:Hacc;
    [|discriminate].
  intros _. apply accepted_true, validateFormEdit_accepted in Hacc.
  cbn [Submit.editFormData Form.name Form.cuisine Form.description Form.phone Form.email
       Form.address Form.latitude Form.longitude] in Hacc.
  destruct Hacc as (Hn & Hc & Hd & Hp & He & _ & Ha & Hl).
  split.
  - apply locationRefused_false in Hl
      as (x & y & Hx & Hy & Hx0 & Hy0 & H1 & H2 & H3 & H4).
    apply orNull_finite in Hx, Hy.
    destruct (Submit.storedLocation restaurant) as [loc|]; [|discriminate].
    simpl in Hx, Hy, Ha. apply orEmpty_filled in Ha.
    exists loc, x, y. by split_and!.
  - repeat constructor; by apply orEmpty_filled.
Qed.

Lemma edit_needs_stored_location_witness :
  let restaurant :=
    Submit.mkStoredRestaurant (Some "Grill House") (Some "BBQ") (Some "Grill on the canal")
      (Some "0300-1234567") (Some "owner@grill.example")
      (Some (Submit.mkStoredLocation (Some "1 Canal Road")
               (Form.Num (Form.Finite (315 # 10))) (Form.Num (Form.Finite (743 # 10))))) in
  exists u,
    Submit.handleSubmitEdit (Submit.editFormData restaurant) = Some u
    /\ exists loc, Submit.storedLocation restaurant = Some loc.
Proof.
  intros restaurant. eexists. split; [reflexivity|].
  match goal with
  | |- exists loc, _ =>
      destruct (edit_needs_stored_location restaurant _ eq_refl)
        as [(loc & _ & _ & Hloc & _) _]
  end.
  exists loc. exact Hloc.
Defined.

(** X17.  The address that [formatAddress] returns for an address object
    carries no white space at its start or end. *)
Theorem formatAddress_is_trimmed (a : Address.AddressData) :
  Js.trim (Address.formatAddress (Some a)) = Address.formatAddress (Some a).
Proof.
  simpl. unfold Address.finish.
  destruct (Js.nonempty (Address.tidy (Address.candidate a))); [|reflexivity].
  unfold Address.tidy. apply trim_idem.
Qed.

(** X18.  The address that the GPS button of the edit screen writes is the
    present ones of street number, street, city, region and country,
    joined in that order; it is not empty as soon as one of them is
    present, and when none is, the address typed before is kept. *)
Theorem gps_address_of_edit (addr : Address.AddressData) (prevAddress : string) :
  let fields := [Address.streetNumber addr; Address.street addr; Address.city addr;
                 Address.region addr; Address.country addr] in
  Submit.gpsAddress addr prevAddress
  = (if List.existsb Js.truthy fields then Submit.fullAddress addr else prevAddress)
  /\ (List.existsb Js.truthy fields = true -> Submit.fullAddress addr <> "")
  /\ (prevAddress <> "" -> Submit.gpsAddress addr prevAddress <> "").
Proof.
  intros fields.
  assert (Hne : Js.nonempty (Submit.fullAddress addr) = List.existsb Js.truthy fields).
  { unfold Submit.fullAddress. fold fields. rewrite join_nonempty.
    - induction fields as [|o l IH]; [done|]. simpl.
      destruct (Js.truthy o); [done | exact IH].
    - apply List.Forall_map, Forall_forall. intros o Ho.
      apply list_elem_of_In, List.filter_In in Ho as [_ Ho].
      by destruct o as [[|c t]|]. }
  unfold Submit.gpsAddress. rewrite Hne. split_and!.
  - reflexivity.
  - intros H. rewrite H in Hne. by destruct (Submit.fullAddress addr).
  - intros Hprev. destruct (List.existsb Js.truthy fields); [|done].
    by destruct (Submit.fullAddress addr).
Qed.

(** ** Parts that need no cleaning *)

Section CleanParts.
Import Js.

Lemma no_comma_no_pair (s : string) : no_comma s = true -> has_comma_pair s = false.
Proof.
  unfold has_comma_pair. induction s as [|c t IH]; [done|]. simpl no_comma.
  intros [Hc Ht]%andb_true_iff. apply occurs_cons; [|by apply IH].
  apply re_comma_pair_None. left. by apply negb_true_iff.
Qed.

Lemma starts_plain_leading (s : string) : starts_plain s = true -> no_leading_comma s = true.
Proof.
  destruct s as [|c t]; [done|]. unfold starts_plain, is_plain.
  intros [Hs Hc]%andb_true_iff. apply negb_true_iff in Hs.
  by rewrite no_leading_nonspace.
Qed.

Lemma starts_plain_drop (s : string) : starts_plain s = true -> drop_spaces s = s.
Proof.
  destruct s as [|c t]; [done|]. unfold starts_plain, is_plain.
  intros [Hs _]%andb_true_iff. apply negb_true_iff in Hs. simpl. by rewrite Hs.
Qed.

Lemma ends_plain_cons (c : ascii) (t : string) :
  ends_plain (String c t) = match t with EmptyString => is_plain c | _ => ends_plain t end.
Proof. reflexivity. Qed.

Lemma ends_plain_not_spaces (s : string) : ends_plain s = true -> all_spaces s = false.
Proof.
  induction s as [|c t IH]; [done|]. rewrite ends_plain_cons. destruct t as [|d t'].
  - unfold is_plain. intros [Hs _]%andb_true_iff. apply negb_true_iff in Hs.
    simpl. by rewrite Hs.
  - intros H. change (all_spaces (String c (String d t')))
      with (is_space c && all_spaces (String d t')).
    rewrite (IH H). apply andb_false_r.
Qed.

Lemma ends_plain_no_trailing_here (s : string) :
  ends_plain s = true -> re_trailing_comma s = false.
Proof.
  induction s as [|c t IH]; [done|]. rewrite ends_plain_cons.
  destruct (is_space c) eqn:Ec.
  - rewrite re_trailing_space by done. destruct t as [|d t']; [|exact IH].
    unfold is_plain. rewrite Ec. discriminate.
  - rewrite re_trailing_nonspace by done. destruct t as [|d t'].
    + unfold is_plain. rewrite Ec. simpl. intros ->%negb_true_iff. done.
    + intros H. rewrite (ends_plain_not_spaces _ H). apply andb_false_r.
Qed.

Lemma ends_plain_no_trailing (s : string) :
  ends_plain s = true -> has_trailing_comma s = false.
Proof.
  induction s as [|c t IH]; [done|]. intros H.
  unfold has_trailing_comma; fold has_trailing_comma.
  rewrite (ends_plain_no_trailing_here _ H). simpl.
  rewrite ends_plain_cons in H. destruct t as [|d t']; [done | by apply IH].
Qed.

Lemma ends_plain_trimEnd (s : string) : ends_plain s = true -> trimEnd s = s.
Proof.
  induction s as [|c t IH]; [done|]. intros H.
  rewrite trimEnd_cons, (ends_plain_not_spaces _ H).
  rewrite ends_plain_cons in H. destruct t as [|d t']; [done|]. by rewrite IH.
Qed.

Lemma ends_plain_app (w s : string) : ends_plain s = true -> ends_plain (w +:+ s) = true.
Proof.
  intros H. induction w as [|c w IH]; [done|].
  change (String c w +:+ s) with (String c (w +:+ s)). rewrite ends_plain_cons.
  destruct (w +:+ s) eqn:E; [simpl in IH; discriminate | exact IH].
Qed.

Lemma starts_plain_app (p s : string) : starts_plain p = true -> starts_plain (p +:+ s) = true.
Proof. by destruct p. Qed.

(** A part without comma, a comma, a space, and a text that begins with a
    plain character: no two commas meet. *)
Lemma no_pair_app (p s : string) :
  no_comma p = true -> starts_plain s = true -> has_comma_pair s = false ->
  has_comma_pair (p +:+ ", " +:+ s) = false.
Proof.
  unfold has_comma_pair. intros Hp Hs Hpair. induction p as [|c p IH].
  - change ("" +:+ ", " +:+ s) with (String "," (String " " s)).
    apply occurs_cons.
    + apply re_comma_pair_None. right.
      rewrite no_leading_space by done. by apply starts_plain_leading.
    + apply occurs_cons; [done | exact Hpair].
  - simpl in Hp. apply andb_true_iff in Hp as [Hc Hp].
    change (String c p +:+ ", " +:+ s) with (String c (p +:+ ", " +:+ s)).
    apply occurs_cons; [|by apply IH].
    apply re_comma_pair_None. left. by apply negb_true_iff.
Qed.

(** Clean parts joined by ", " begin and end with a plain character and
    hold no two commas in a row. *)
Lemma join_clean (parts : list string) :
  Forall (fun p => Address.cleanPart p = true) parts -> parts <> [] ->
  starts_plain (join ", " parts) = true
  /\ ends_plain (join ", " parts) = true
  /\ has_comma_pair (join ", " parts) = false.
Proof.
  induction 1 as [|p rest Hp Hrest IH]; [done|]. intros _.
  unfold Address.cleanPart in Hp.
  apply andb_true_iff in Hp as [[Hs He]%andb_true_iff Hn].
  destruct rest as [|q rest'].
  - unfold join. simpl. split_and!; [done | done | by apply no_comma_no_pair].
  - destruct IH as (IHs & IHe & IHp); [done|].
    change (join ", " (p :: q :: rest')) with (p +:+ ", " +:+ join ", " (q :: rest')).
    split_and!.
    + by apply starts_plain_app.
    + by apply ends_plain_app, ends_plain_app.
    + by apply no_pair_app.
Qed.

Lemma tidy_clean (s : string) :
  starts_plain s = true -> ends_plain s = true -> has_comma_pair s = false ->
  Address.tidy s = s.
Proof.
  intros Hs He Hp. unfold Address.tidy, collapse_commas.
  rewrite (replace_all_no_match re_comma_pair "," s re_comma_pair_consuming Hp).
  rewrite (strip_leading_fixed s (starts_plain_leading s Hs)).
  rewrite (strip_trailing_fixed s (ends_plain_no_trailing s He)).
  unfold trim. by rewrite (starts_plain_drop s Hs), (ends_plain_trimEnd s He).
Qed.

End CleanParts.

(** X20.  When the parts appended by steps 1 to 7 need no cleaning (none
    holds a comma or begins or ends with white space) and the fallback is
    out of play (three parts or more, or no [formattedAddress]), the
    address returned is exactly these parts joined by ", ". *)
Theorem formatAddress_clean_parts (a : Address.AddressData) :
  Forall (fun p => Address.cleanPart p = true) (Address.addressParts a) ->
  Address.addressParts a <> [] ->
  (3 <= length (Address.addressParts a))%nat \/ Js.truthy (Address.formattedAddress a) = false ->
  Address.formatAddress (Some a) = Js.join ", " (Address.addressParts a).
Proof.
  intros Hclean Hne Hfall.
  destruct (join_clean _ Hclean Hne) as (Hs & He & Hp).
  assert (Hc : Address.candidate a = Js.join ", " (Address.addressParts a)).
  { unfold Address.candidate. destruct Hfall as [Hlen|Hfa].
    - apply Nat.ltb_ge in Hlen. by rewrite Hlen.
    - by rewrite Hfa, andb_false_r. }
  simpl. unfold Address.finish. rewrite Hc, (tidy_clean _ Hs He Hp).
  by destruct (Js.join ", " (Address.addressParts a)).
Qed.

Lemma formatAddress_clean_parts_witness :
  let a := Address.mkAddressData (Some "Anarkali Bazaar") (Some "12") (Some "Mall Road")
             (Some "Gulberg") (Some "Lahore") (Some "Punjab") (Some "Pakistan")
             (Some "Q9J7+M2P, Lahore") None in
  Forall (fun p => Address.cleanPart p = true) (Address.addressParts a)
  /\ Address.addressParts a <> []
  /\ (3 <= length (Address.addressParts a))%nat
  /\ Address.formatAddress (Some a)
     = "Anarkali Bazaar, 12 Mall Road, Gulberg, Lahore, Punjab, Pakistan".
Proof.
  intros a.
  assert (H1 : Forall (fun p => Address.cleanPart p = true) (Address.addressParts a))
    by (repeat constructor).
  assert (H2 : Address.addressParts a <> []) by discriminate.
  assert (H3 : (3 <= length (Address.addressParts a))%nat) by (simpl; lia).
  split_and!; try assumption.
  rewrite (formatAddress_clean_parts a H1 H2 (or_introl H3)). reflexivity.
Defined.

(** ** Order cart *)

(** *** Binary64 arithmetic on numbers that are not negative *)

Section Binary64.
Import Cart.
Local Open Scope Z_scope.

Lemma shr_1_nonneg (r : shr_record) : 0 <= shr_m r -> 0 <= shr_m (shr_1 r).
Proof.
  destruct r as [m b s]. simpl. destruct m as [|p|p]; [simpl; lia | | lia].
  intros _. destruct p; simpl; lia.
Qed.

Lemma iter_shr_1_nonneg (n : positive) :
  forall r : shr_record, 0 <= shr_m r -> 0 <= shr_m (SpecFloat.iter_pos shr_1 n r).
Proof.
  induction n as [n IH|n IH|]; intros r Hr; simpl.
  - apply IH, IH, shr_1_nonneg, Hr.
  - apply IH, IH, Hr.
  - apply shr_1_nonneg, Hr.
Qed.

Lemma shr_fexp_nonneg (m e : Z) (l : location) :
  0 <= m -> 0 <= shr_m (fst (shr_fexp prec emax m e l)).
Proof.
  intros Hm. unfold shr_fexp, shr.
  assert (H0 : 0 <= shr_m (shr_record_of_loc m l)) by (destruct l as [|[]]; exact Hm).
  destruct (_ - e); simpl; [exact H0 | | exact H0].
  apply iter_shr_1_nonneg, H0.
Qed.

Lemma round_nearest_even_nonneg (m : Z) (l : location) :
  0 <= m -> 0 <= round_nearest_even m l.
Proof.
  intros Hm. destruct l as [|[]]; simpl; try lia. destruct (Z.even m); lia.
Qed.

(** Rounding keeps the sign and never gives [NaN]. *)
Lemma binary_round_aux_signed (sx : bool) (m : positive) (e : Z) (l : location) :
  SFsigned sx (binary_round_aux prec emax sx (Zpos m) e l).
Proof.
  unfold binary_round_aux.
  pose proof (shr_fexp_nonneg (Zpos m) e l ltac:(lia)) as H1.
  destruct (shr_fexp prec emax (Zpos m) e l) as [mrs' e']. simpl in H1.
  pose proof (shr_fexp_nonneg (round_nearest_even (shr_m mrs') (loc_of_shr_record mrs')) e'
                loc_Exact (round_nearest_even_nonneg _ _ H1)) as H2.
  destruct (shr_fexp prec emax _ e' loc_Exact) as [mrs'' e'']. simpl in H2.
  destruct (shr_m mrs'') as [|p|p]; [by left | | lia].
  destruct (e'' <=? emax - prec); [right; right; eauto | right; by left].
Qed.

Lemma binary_round_signed (sx : bool) (m : positive) (e : Z) :
  SFsigned sx (binary_round prec emax sx m e).
Proof.
  unfold binary_round. destruct (shl_align m e _) as [mz ez].
  apply binary_round_aux_signed.
Qed.

Lemma SFsigned_nonneg (x : spec_float) : SFsigned false x -> SFnonneg x = true.
Proof. intros [->|[->|(m & e & ->)]]; reflexivity. Qed.

Lemma SFnonneg_add (a b : spec_float) :
  SFnonneg a = true -> SFnonneg b = true -> SFnonneg (SF64add a b) = true.
Proof.
  destruct a as [sa|[]| |[] ma ea]; try discriminate;
    destruct b as [sb|[]| |[] mb eb]; try discriminate; intros _ _; try reflexivity.
  - by destruct sa, sb.
  - unfold SF64add, SFadd. cbn [cond_Zopp].
    apply SFsigned_nonneg. cbn [Z.add binary_normalize]. apply binary_round_signed.
Qed.

Lemma SFnonneg_mul (a : spec_float) (m : positive) (e : Z) :
  SFnonneg a = true -> SFnonneg (SF64mul a (S754_finite false m e)) = true.
Proof.
  intros Ha. destruct a as [sa|[]| |[] ma ea]; try discriminate; try reflexivity.
  unfold SF64mul, SFmul. apply SFsigned_nonneg. apply binary_round_aux_signed.
Qed.

(** [0 <= x] reads the value of [x]. *)
Lemma leb_zero (x : float) : (0 <=? x)%float = SFnonneg (Prim2SF x).
Proof.
  rewrite leb_spec. change (Prim2SF 0) with (S754_zero false).
  unfold SFleb, SFcompare. by destruct (Prim2SF x) as [s|[]| |[] m e].
Qed.

Lemma digits2_iter_xO (d m : positive) :
  digits2_pos (Pos.iter xO m d) = (digits2_pos m + d)%positive.
Proof.
  induction d as [|d IH] using Pos.peano_ind.
  - simpl. lia.
  - rewrite Pos.iter_succ. simpl. rewrite IH. lia.
Qed.

Lemma digits2_size (p : positive) : digits2_pos p = Pos.size p.
Proof. induction p as [p IH|p IH|]; simpl; by rewrite ?IH. Qed.

Lemma digits2_le (p k : positive) :
  Zpos p < 2 ^ Zpos k -> Zpos (digits2_pos p) <= Zpos k.
Proof.
  intros Hp. rewrite digits2_size.
  pose proof (Pos.size_le p) as Hs.
  assert (H : 2 ^ Zpos (Pos.size p) <= 2 * Zpos p).
  { change 2 with (Zpos 2) at 1. rewrite <- Pos2Z.inj_pow. lia. }
  destruct (Z_le_gt_dec (Zpos (Pos.size p)) (Zpos k)) as [|Hgt]; [done|].
  assert (2 ^ (Zpos k + 1) <= 2 ^ Zpos (Pos.size p)) by (apply Z.pow_le_mono_r; lia).
  rewrite Z.pow_add_r in * by lia. lia.
Qed.

(** A mantissa of 53 bits with an exponent in range is not rounded. *)
Lemma binary_round_aux_exact (sx : bool) (m : positive) (e : Z) :
  Zpos (digits2_pos m) = 53 -> -1074 <= e <= 971 ->
  binary_round_aux prec emax sx (Zpos m) e loc_Exact = S754_finite sx m e.
Proof.
  intros Hd He.
  assert (Hs : shr_fexp prec emax (Zpos m) e loc_Exact
               = ({| shr_m := Zpos m; shr_r := false; shr_s := false |}, e)).
  { unfold shr_fexp. cbn [Zdigits2]. rewrite Hd.
    replace (fexp prec emax (53 + e) - e) with 0; [reflexivity|].
    unfold fexp, SpecFloat.emin, prec, emax. lia. }
  unfold binary_round_aux. rewrite Hs. cbn [shr_m loc_of_shr_record round_nearest_even].
  rewrite Hs. cbn [shr_m].
  replace (e <=? emax - prec) with true; [done|].
  symmetry. apply Z.leb_le. unfold prec, emax. lia.
Qed.

Lemma binary_round_small (sx : bool) (p : positive) :
  Zpos p < 2 ^ 53 -> exists m e, binary_round prec emax sx p 0 = S754_finite sx m e.
Proof.
  intros Hp. pose proof (digits2_le p 53 Hp) as Hd.
  unfold binary_round, shl_align.
  replace (fexp prec emax (Zpos (digits2_pos p) + 0) - 0) with (Zpos (digits2_pos p) - 53)
    by (unfold fexp, SpecFloat.emin, prec, emax; lia).
  replace (fexp prec emax (Zpos (digits2_pos p) + 0)) with (Zpos (digits2_pos p) - 53)
    by (unfold fexp, SpecFloat.emin, prec, emax; lia).
  destruct (Zpos (digits2_pos p) - 53) as [|d|d] eqn:E; [|lia|].
  - eexists _, _. apply binary_round_aux_exact; lia.
  - eexists _, _. apply binary_round_aux_exact; [|lia].
    rewrite digits2_iter_xO. lia.
Qed.

(** A quantity of at least 1 is a positive finite number. *)
Lemma toNumber_positive (q : Z) :
  1 <= q -> exists m e, Prim2SF (toNumber q) = S754_finite false m e.
Proof.
  intros Hq. unfold toNumber, maxCount.
  replace (q <? 0) with false by (symmetry; apply Z.ltb_ge; lia).
  rewrite of_uint63_spec, Uint63.of_Z_spec.
  rewrite Z.abs_eq by lia.
  destruct (Z_lt_le_dec q 9007199254740992) as [Hlt|Hge].
  - rewrite Z.min_l by lia. rewrite Z.mod_small by (change Uint63.wB with (2^63); lia).
    destruct q as [|p|p]; try lia. apply binary_round_small. exact Hlt.
  - rewrite Z.min_r by lia. by eexists _, _.
Qed.

(** One step of the totals: a total and a price that are not negative,
    and a quantity of at least 1. *)
Lemma total_step_nonneg (total p : float) (q : Z) :
  (0 <=? total)%float = true -> (0 <=? p)%float = true -> 1 <= q ->
  (0 <=? total + p * toNumber q)%float = true.
Proof.
  rewrite !leb_zero, add_spec, mul_spec. intros Ht Hp Hq.
  destruct (toNumber_positive q Hq) as (m & e & ->).
  by apply SFnonneg_add, SFnonneg_mul.
Qed.

End Binary64.

Section CartFacts.
Import Cart.

(** A total is the sum of its terms in the order of the lines. *)
Lemma sum_fold (f : CartItem -> float) (cart : list CartItem) (z : float) :
  List.fold_left (fun total ci => (total + f ci)%float) cart z
  = List.fold_left (fun total x => (total + x)%float) (List.map f cart) z.
Proof.
  revert z. induction cart as [|ci cart IH]; intros z; simpl; [done | apply IH].
Qed.

Lemma total_nonneg (f : MenuItem -> float) (cart : list CartItem) (z : float) :
  Forall (fun ci => (0 <=? f (item ci))%float = true) cart ->
  Forall (fun ci => (1 <= quantity ci)%Z) cart ->
  (0 <=? z)%float = true ->
  (0 <=? List.fold_left (fun total ci => (total + f (item ci) * toNumber (quantity ci))%float)
           cart z)%float = true.
Proof.
  revert z. induction cart as [|ci cart IH]; intros z Hf Hq Hz; simpl; [done|].
  apply Forall_cons in Hf as [Hf Hfs]. apply Forall_cons in Hq as [Hq Hqs].
  apply IH; [done | done |]. by apply total_step_nonneg.
Qed.

Lemma find_hasId_None (i : string) (cart : list CartItem) :
  List.find (hasId i) cart = None -> i ∉ List.map itemId cart.
Proof.
  induction cart as [|ci cart IH]; simpl.
  - intros _ H. inversion H.
  - unfold hasId at 1. destruct (String.eqb_spec (itemId ci) i) as [E|E]; [discriminate|].
    intros H Hin. apply elem_of_cons in Hin as [->|Hin]; [congruence|]. by apply IH.
Qed.

Lemma find_hasId_Some (i : string) (cart : list CartItem) (e : CartItem) :
  List.find (hasId i) cart = Some e -> e ∈ cart /\ itemId e = i.
Proof.
  induction cart as [|ci cart IH]; simpl; [discriminate|].
  unfold hasId at 1. destruct (String.eqb_spec (itemId ci) i) as [E|E].
  - intros [= <-]. split; [left | done].
  - intros H. destruct (IH H). split; [by right | done].
Qed.

Lemma find_hasId_absent (i : string) (cart : list CartItem) :
  i ∉ List.map itemId cart -> List.find (hasId i) cart = None.
Proof.
  intros H. destruct (List.find (hasId i) cart) as [e|] eqn:E; [|done].
  apply find_hasId_Some in E as [Hin <-]. destruct H.
  change (List.map itemId cart) with (itemId <$> cart). by apply list_elem_of_fmap_2.
Qed.

(** Changing quantities keeps the ids of the lines, in order. *)
Lemma ids_requantify (g : CartItem -> Z) (p : CartItem -> bool) (cart : list CartItem) :
  List.map itemId (List.map (fun ci => if p ci then withQuantity ci (g ci) else ci) cart)
  = List.map itemId cart.
Proof.
  induction cart as [|ci cart IH]; simpl; [done|].
  rewrite IH. by destruct (p ci).
Qed.

(** With one line per id, the line found for an id is the only one. *)
Lemma unique_line (cart : list CartItem) (x y : CartItem) :
  NoDup (List.map itemId cart) -> x ∈ cart -> y ∈ cart -> itemId x = itemId y -> x = y.
Proof.
  induction cart as [|ci cart IH]; simpl.
  - intros _ H. inversion H.
  - intros Hnd Hx Hy E. apply NoDup_cons in Hnd as [Hni Hnd].
    assert (Hmem : forall z, z ∈ cart -> itemId z ∈ List.map itemId cart).
    { intros z Hz. change (List.map itemId cart) with (itemId <$> cart).
      by apply list_elem_of_fmap_2. }
    apply elem_of_cons in Hx as [->|Hx]; apply elem_of_cons in Hy as [->|Hy]; auto.
    + destruct Hni. rewrite E. by apply Hmem.
    + destruct Hni. rewrite <- E. by apply Hmem.
Qed.

Lemma ids_filter (p : CartItem -> bool) (cart : list CartItem) :
  NoDup (List.map itemId cart) -> NoDup (List.map itemId (List.filter p cart)).
Proof.
  induction cart as [|ci cart IH]; simpl; [done|].
  intros [Hni Hnd]%NoDup_cons. destruct (p ci); simpl; [|by apply IH].
  apply NoDup_cons. split; [|by apply IH].
  intros Hin. apply Hni.
  change (itemId ci ∈ itemId <$> List.filter p cart) in Hin.
  apply list_elem_of_fmap in Hin as (z & -> & Hz).
  change (List.map itemId cart) with (itemId <$> cart).
  apply list_elem_of_fmap_2. apply list_elem_of_In, List.filter_In in Hz as [Hz _].
  by apply list_elem_of_In.
Qed.

Lemma addToCart_wellFormed (it : MenuItem) (cart : list CartItem) :
  wellFormed cart -> wellFormed (addToCart it cart).
Proof.
  intros [Hnd Hq]. unfold addToCart.
  destruct (List.find (hasId (id it)) cart) as [e|] eqn:E.
  - split.
    + by rewrite (ids_requantify (fun ci => (quantity ci + 1)%Z)).
    + apply List.Forall_map. eapply Forall_impl; [exact Hq|].
      intros ci Hci; simpl in *. destruct (hasId (id it) ci); simpl; lia.
  - apply find_hasId_None in E. split.
    + rewrite List.map_app. simpl. apply NoDup_app. split_and!; [done| |apply NoDup_singleton].
      intros x Hx ->%list_elem_of_singleton. done.
    + apply Forall_app. split; [done|]. repeat constructor. simpl. lia.
Qed.

Lemma removeFromCart_wellFormed (i : string) (cart cart' : list CartItem) :
  wellFormed cart -> removeFromCart i cart = Normal cart' -> wellFormed cart'.
Proof.
  intros [Hnd Hq]. unfold removeFromCart.
  destruct (List.find (hasId i) cart) as [e|] eqn:E; [|discriminate].
  apply find_hasId_Some in E as [He Hi].
  destruct (Z.eqb_spec (quantity e) 1) as [Q|Q]; intros [= <-].
  - split; [by apply ids_filter|].
    apply Forall_forall. intros x Hx.
    apply list_elem_of_In, List.filter_In in Hx as [Hx _].
    rewrite Forall_forall in Hq. by apply Hq, list_elem_of_In.
  - split.
    + by rewrite (ids_requantify (fun ci => (quantity ci - 1)%Z)).
    + apply List.Forall_map. apply Forall_forall. intros ci Hci.
      pose proof (proj1 (Forall_forall _ _) Hq) as Hall.
      unfold hasId. destruct (String.eqb_spec (itemId ci) i) as [Ei|Ei]; simpl.
      * assert (ci = e) as -> by (apply (unique_line cart); congruence).
        specialize (Hall e He). simpl in Hall. lia.
      * by apply Hall.
Qed.

Lemma reachable_wellFormed (P : MenuItem -> Prop) (cart : list CartItem) :
  reachable P cart -> wellFormed cart.
Proof.
  induction 1 as [|it cart _ _ IH|i cart cart' _ IH Hrm].
  - split; constructor.
  - by apply addToCart_wellFormed.
  - by apply (removeFromCart_wellFormed i cart).
Qed.

(** The lines of a reachable cart carry items that were offered. *)
Lemma reachable_items (P : MenuItem -> Prop) (cart : list CartItem) :
  reachable P cart -> Forall (fun ci => P (item ci)) cart.
Proof.
  induction 1 as [|it cart HP _ IH|i cart cart' _ IH Hrm].
  - constructor.
  - unfold addToCart. destruct (List.find (hasId (id it)) cart).
    + apply List.Forall_map. eapply Forall_impl; [exact IH|].
      intros ci Hci. simpl. by destruct (hasId (id it) ci).
    + apply Forall_app. split; [done|]. by repeat constructor.
  - unfold removeFromCart in Hrm.
    destruct (List.find (hasId i) cart) as [e|]; [|discriminate].
    destruct (quantity e =? 1)%Z; injection Hrm as <-.
    + apply Forall_forall. intros x Hx.
      apply list_elem_of_In, List.filter_In in Hx as [Hx _].
      rewrite Forall_forall in IH. by apply IH, list_elem_of_In.
    + apply List.Forall_map. eapply Forall_impl; [exact IH|].
      intros ci Hci. simpl. by destruct (hasId i ci).
Qed.

(** Removing the id of a line of quantity 1 leaves no line with that id. *)
Lemma removeFromCart_unit_line (cart cart' : list CartItem) (line : CartItem) :
  wellFormed cart -> line ∈ cart -> quantity line = 1%Z ->
  removeFromCart (itemId line) cart = Normal cart' ->
  itemId line ∉ List.map itemId cart'.
Proof.
  intros [Hnd _] Hline Hq. unfold removeFromCart.
  destruct (List.find (hasId (itemId line)) cart) as [e|] eqn:E; [|discriminate].
  apply find_hasId_Some in E as [He Hi].
  assert (e = line) as -> by (by apply (unique_line cart)).
  rewrite Hq. simpl. intros [= <-] Hin.
  change (itemId line ∈ itemId <$> List.filter (fun ci => negb (hasId (itemId line) ci)) cart) in Hin.
  apply list_elem_of_fmap in Hin as (x & Hx & Hin).
  apply list_elem_of_In, List.filter_In in Hin as [_ Hneg].
  unfold hasId in Hneg. rewrite <- Hx, String.eqb_refl in Hneg. discriminate.
Qed.

(** A removal of an id that has a line does not throw. *)
Lemma removeFromCart_present (i : string) (cart : list CartItem) :
  i ∈ List.map itemId cart -> exists cart', removeFromCart i cart = Normal cart'.
Proof.
  intros Hin. unfold removeFromCart.
  destruct (List.find (hasId i) cart) as [e|] eqn:E.
  - destruct (quantity e =? 1)%Z; eauto.
  - by apply find_hasId_None in E.
Qed.


End CartFacts.

(** C1 (the behaviour of the code where the claim fails).  [removeFromCart]
    with an id that has no line in the cart, the empty cart included,
    does not leave the cart unchanged: the updater throws a TypeError. *)
Theorem removeFromCart_unknown_id_throws (i : string) (cart : list Cart.CartItem) :
  i ∉ List.map Cart.itemId cart -> Cart.removeFromCart i cart = Throw "TypeError".
Proof.
  intros H. unfold Cart.removeFromCart. by rewrite find_hasId_absent.
Qed.

Lemma removeFromCart_unknown_id_throws_witness :
  ("m1" ∉ List.map Cart.itemId []) /\ Cart.removeFromCart "m1" [] = Throw "TypeError".
Proof.
  split.
  - apply not_elem_of_nil.
  - apply removeFromCart_unknown_id_throws. apply not_elem_of_nil.
Defined.



(** The number of a count: exact up to 2^53, where [+ 1] stops. *)
Example toNumber_counts :
  Cart.toNumber 1 = 1%float /\ Cart.toNumber 3 = 3%float
  /\ Cart.toNumber Cart.maxCount = 9007199254740992%float
  /\ (9007199254740992 + 1 =? 9007199254740992)%float = true
  /\ Cart.toNumber (Cart.maxCount + 1) = 9007199254740992%float.
Proof. split_and!; vm_compute; reflexivity. Qed.

(** The totals of the cart of two burgers and a tea. *)
Example totals_of_burgers_and_tea :
  let cart := Cart.addToCart Cart.burger (Cart.addToCart Cart.tea (Cart.addToCart Cart.burger [])) in
  Cart.getTotalPrice cart = 980%float /\ Cart.getTotalCalories cart = 1040%float.
Proof. split; vm_compute; reflexivity. Qed.

(** Every addition rounds, so a total follows the order of the lines:
    lines of 0.1, 0.2 and 0.3 total 0.6000000000000001, and the same
    lines in the opposite order total 0.6. *)
Example total_follows_line_order :
  Cart.getTotalPrice (Cart.addToCart Cart.naan (Cart.addToCart Cart.chutney
                        (Cart.addToCart Cart.samosa [])))
  = 0x1.3333333333334p-1%float
  /\ Cart.getTotalPrice (Cart.addToCart Cart.samosa (Cart.addToCart Cart.chutney
                           (Cart.addToCart Cart.naan [])))
     = 0x1.3333333333333p-1%float.
Proof. split; vm_compute; reflexivity. Qed.

(** C7.  Every cart state reached from the empty cart by [addToCart] and
    by [removeFromCart] on ids present in the cart has at most one line
    per item id, and every line has a quantity of at least 1; removing
    the id of a line whose quantity is 1 removes the line instead of
    leaving it with quantity 0. *)
Theorem reachable_cart_lines (P : Cart.MenuItem -> Prop) (cart : list Cart.CartItem) :
  Cart.reachable P cart ->
  NoDup (List.map Cart.itemId cart)
  /\ Forall (fun ci => (1 <= Cart.quantity ci)%Z) cart
  /\ (forall line cart', line ∈ cart -> Cart.quantity line = 1%Z ->
        Cart.removeFromCart (Cart.itemId line) cart = Normal cart' ->
        Cart.itemId line ∉ List.map Cart.itemId cart').
Proof.
  intros Hr. pose proof (reachable_wellFormed P cart Hr) as Hwf.
  destruct Hwf as [Hnd Hq]. split_and!; [done | done |].
  intros line cart' Hline Hone Hrm.
  by apply (removeFromCart_unit_line cart cart' line).
Qed.

Lemma reachable_cart_lines_witness :
  let cart := [Cart.mkCartItem Cart.tea 1] in
  Cart.reachable Cart.anyItem cart
  /\ NoDup (List.map Cart.itemId cart)
  /\ Forall (fun ci => (1 <= Cart.quantity ci)%Z) cart.
Proof.
  assert (Hr : Cart.reachable Cart.anyItem [Cart.mkCartItem Cart.tea 1]).
  { apply (Cart.reach_remove Cart.anyItem "m1"
             (Cart.addToCart Cart.tea (Cart.addToCart Cart.burger []))).
    - apply Cart.reach_add; [exact I|]. apply Cart.reach_add; [exact I|]. apply Cart.reach_init.
    - vm_compute. reflexivity. }
  split; [exact Hr|].
  destruct (reachable_cart_lines Cart.anyItem _ Hr) as (Hnd & Hq & _).
  split; [exact Hnd | exact Hq].
Defined.

(** ** The menu row and the order *)

Section CartMore.
Import Cart.

Lemma find_requantify (i : string) (g : CartItem -> Z) (p : CartItem -> bool)
      (cart : list CartItem) :
  List.find (hasId i) (List.map (fun ci => if p ci then withQuantity ci (g ci) else ci) cart)
  = (fun ci => if p ci then withQuantity ci (g ci) else ci) <$> List.find (hasId i) cart.
Proof.
  induction cart as [|x l IH]; [done|]. cbn [List.map List.find].
  assert (hasId i (if p x then withQuantity x (g x) else x) = hasId i x) as ->
    by (by destruct (p x)).
  destruct (hasId i x); [done | exact IH].
Qed.


Lemma find_filter_other (i j : string) (cart : list CartItem) :
  i <> j ->
  List.find (hasId j) (List.filter (fun ci => negb (hasId i ci)) cart)
  = List.find (hasId j) cart.
Proof.
  intros Hne. induction cart as [|x l IH]; [done|]. cbn [List.filter List.find].
  destruct (hasId i x) eqn:Ei; cbn [negb].
  - assert (hasId j x = false) as ->; [|exact IH].
    unfold hasId in *. apply String.eqb_eq in Ei. apply String.eqb_neq. congruence.
  - cbn [List.find]. destruct (hasId j x); [done | exact IH].
Qed.

Lemma find_filter_same (i : string) (cart : list CartItem) :
  List.find (hasId i) (List.filter (fun ci => negb (hasId i ci)) cart) = None.
Proof.
  induction cart as [|x l IH]; [done|]. cbn [List.filter].
  destruct (hasId i x) eqn:E; simpl; [exact IH|]. by rewrite E.
Qed.

Lemma hasId_found (i : string) (cart : list CartItem) (e : CartItem) :
  List.find (hasId i) cart = Some e -> hasId i e = true.
Proof. intros [_ H]%List.find_some. exact H. Qed.

Lemma hasId_other (i j : string) (e : CartItem) :
  i <> j -> hasId j e = true -> hasId i e = false.
Proof.
  unfold hasId. intros Hne Hj%String.eqb_eq. apply String.eqb_neq. congruence.
Qed.

Lemma withQuantity_same (ci : CartItem) : withQuantity ci (quantity ci) = ci.
Proof. by destruct ci. Qed.

End CartMore.


(** X9.  Whenever the menu row of an item renders its remove button, that
    is, shows a quantity above 0, [removeFromCart] for the item does not
    throw; afterwards that row shows one less and the rows of items with
    another id show what they showed. *)
Theorem remove_button_is_safe (it : Cart.MenuItem) (cart : list Cart.CartItem) :
  Cart.removeButtonShown cart it = true ->
  exists cart',
    Cart.removeFromCart (Cart.id it) cart = Normal cart'
    /\ forall other,
         Cart.displayedQuantity cart' other
         = if String.eqb (Cart.id other) (Cart.id it)
           then (Cart.displayedQuantity cart other - 1)%Z
           else Cart.displayedQuantity cart other.
Proof.
  unfold Cart.removeButtonShown, Cart.displayedQuantity, Cart.removeFromCart.
  destruct (List.find (Cart.hasId (Cart.id it)) cart) as [e|] eqn:E; [|discriminate].
  intros _. destruct (Z.eqb_spec (Cart.quantity e) 1) as [Hq|Hq]; eexists; (split; [reflexivity|]).
  - intros other. destruct (String.eqb_spec (Cart.id other) (Cart.id it)) as [Eid|Eid].
    + rewrite Eid, find_filter_same, E. lia.
    + rewrite find_filter_other by congruence. done.
  - intros other. rewrite (find_requantify _ (fun ci => (Cart.quantity ci - 1)%Z)).
    destruct (String.eqb_spec (Cart.id other) (Cart.id it)) as [Eid|Eid].
    + rewrite Eid, E. simpl. by rewrite (hasId_found _ _ _ E).
    + destruct (List.find (Cart.hasId (Cart.id other)) cart) as [x|] eqn:Ex; [|done].
      simpl. rewrite (hasId_other (Cart.id it) (Cart.id other) x); [done | congruence |].
      by apply (hasId_found _ cart).
Qed.

Lemma remove_button_is_safe_witness :
  let cart := Cart.addToCart Cart.tea (Cart.addToCart Cart.burger []) in
  Cart.removeButtonShown cart Cart.tea = true
  /\ exists cart',
       Cart.removeFromCart (Cart.id Cart.tea) cart = Normal cart'
       /\ Cart.displayedQuantity cart' Cart.tea = 0%Z
       /\ Cart.displayedQuantity cart' Cart.burger = 1%Z.
Proof.
  intros cart. split; [reflexivity|].
  destruct (remove_button_is_safe Cart.tea cart eq_refl) as (cart' & Hrm & Hshow).
  exists cart'. split; [exact Hrm|]. split.
  - rewrite (Hshow Cart.tea). reflexivity.
  - rewrite (Hshow Cart.burger). reflexivity.
Defined.



(** X13.  An order handed to [placeOrder] from a cart of the session comes
    from a logged-in user and carries the whole cart: at least one line,
    one line per item id, every quantity at least 1, and totals that are
    the sums over these lines, added in binary64 in the order of the
    lines; the totals are non-negative numbers, not [NaN], when the prices
    and calories of the menu are. *)
Theorem order_carries_cart (P : Cart.MenuItem -> Prop) (user : option Cart.User)
        (restaurant : Cart.RestaurantRef) (cart : list Cart.CartItem)
        (order : Cart.OrderData) :
  Cart.reachable P cart ->
  Cart.handlePlaceOrder user restaurant cart = Cart.PlaceOrder order ->
  (exists u, user = Some u /\ Cart.deliveryAddress order = Cart.address u)
  /\ Cart.items order = cart /\ cart <> []
  /\ NoDup (List.map Cart.itemId (Cart.items order))
  /\ Forall (fun ci => (1 <= Cart.quantity ci)%Z) (Cart.items order)
  /\ Cart.totalPrice order = Cart.sum (Cart.linePrices (Cart.items order))
  /\ Cart.totalCalories order = Cart.sum (Cart.lineCalories (Cart.items order))
  /\ ((forall it, P it -> Cart.nonNegative it) ->
      (0 <=? Cart.totalPrice order)%float = true
      /\ (0 <=? Cart.totalCalories order)%float = true).
Proof.
  intros Hr Hplace. unfold Cart.handlePlaceOrder in Hplace.
  destruct user as [u|]; [|discriminate].
  destruct cart as [|line rest] eqn:Ecart; [discriminate|]. rewrite <- Ecart in *.
  injection Hplace as <-. cbn [Cart.items Cart.totalPrice Cart.totalCalories Cart.deliveryAddress].
  destruct (reachable_wellFormed P cart Hr) as [Hnd Hq].
  pose proof (reachable_items P cart Hr) as Hi.
  assert (Hp : Cart.getTotalPrice cart = Cart.sum (Cart.linePrices cart))
    by apply (sum_fold Cart.linePrice).
  assert (Hc : Cart.getTotalCalories cart = Cart.sum (Cart.lineCalories cart))
    by apply (sum_fold Cart.lineCalorie).
  split_and!; try done.
  - eauto.
  - rewrite Ecart. discriminate.
  - intros HP. split.
    + apply (total_nonneg Cart.price); [|done|done].
      eapply Forall_impl; [exact Hi|]. intros ci Hci. by destruct (HP _ Hci).
    + apply (total_nonneg Cart.caloriesOrZero); [|done|done].
      eapply Forall_impl; [exact Hi|]. intros ci Hci. by destruct (HP _ Hci).
Qed.

Lemma order_carries_cart_witness :
  let cart := Cart.addToCart Cart.tea (Cart.addToCart Cart.burger []) in
  let user := Cart.mkUser "u1" (Some "12 Canal Road") in
  let restaurant := Cart.mkRestaurantRef "r1" "Grill" None in
  Cart.reachable Cart.nonNegative cart
  /\ exists order,
       Cart.handlePlaceOrder (Some user) restaurant cart = Cart.PlaceOrder order
       /\ Cart.items order = cart
       /\ Cart.totalPrice order = 530%float.
Proof.
  intros cart user restaurant.
  assert (Hb : Cart.nonNegative Cart.burger) by (split; reflexivity).
  assert (Ht : Cart.nonNegative Cart.tea) by (split; reflexivity).
  assert (Hr : Cart.reachable Cart.nonNegative cart).
  { apply Cart.reach_add; [exact Ht|]. apply Cart.reach_add; [exact Hb|]. apply Cart.reach_init. }
  split; [exact Hr|]. eexists. split; [reflexivity|].
  match goal with
  | |- Cart.items ?o = _ /\ _ =>
      destruct (order_carries_cart Cart.nonNegative (Some user) restaurant cart o Hr eq_refl)
        as (_ & Hitems & _)
  end.
  split; [exact Hitems | reflexivity].
Defined.

(** ** Restaurant types *)

Section TypesFacts.
Import Types.

Lemma is_space_lower_char (c : ascii) : Js.is_space (Js.lower_char c) = Js.is_space c.
Proof. destruct c as [[] [] [] [] [] [] [] []]; reflexivity. Qed.

Lemma drop_spaces_lower (s : string) :
  Js.drop_spaces (Js.toLowerCase s) = Js.toLowerCase (Js.drop_spaces s).
Proof.
  induction s as [|c t IH]; simpl; [done|].
  rewrite is_space_lower_char. by destruct (Js.is_space c).
Qed.

Lemma all_spaces_lower (s : string) :
  Js.all_spaces (Js.toLowerCase s) = Js.all_spaces s.
Proof.
  induction s as [|c t IH]; simpl; [done|].
  by rewrite is_space_lower_char, IH.
Qed.

Lemma trimEnd_lower (s : string) :
  Js.trimEnd (Js.toLowerCase s) = Js.toLowerCase (Js.trimEnd s).
Proof.
  induction s as [|c t IH]; [done|].
  change (Js.toLowerCase (String c t)) with (String (Js.lower_char c) (Js.toLowerCase t)).
  unfold Js.trimEnd; fold Js.trimEnd.
  change (String (Js.lower_char c) (Js.toLowerCase t)) with (Js.toLowerCase (String c t)).
  rewrite all_spaces_lower. destruct (Js.all_spaces (String c t)); [done|].
  simpl. by rewrite IH.
Qed.

(** Trimming and lower-casing commute. *)
Lemma trim_lower (s : string) :
  Js.trim (Js.toLowerCase s) = Js.toLowerCase (Js.trim s).
Proof. unfold Js.trim. by rewrite drop_spaces_lower, trimEnd_lower. Qed.

Lemma filter_sublist {A : Type} (p : A -> bool) (l : list A) :
  List.filter p l `sublist_of` l.
Proof.
  induction l as [|x l IH]; simpl; [constructor|].
  destruct (p x); by constructor.
Qed.

Lemma bucketOf_cons (key : string) (r : Restaurant) (rest : list Restaurant) :
  bucketOf key (r :: rest)
  = if String.eqb (bucketKey r) key then r :: bucketOf key rest else bucketOf key rest.
Proof. reflexivity. Qed.

(** The reduction from any accumulator: each bucket grows by the
    restaurants that have its key, in the order of the list. *)
Lemma reduce_groupStep (restaurants : list Restaurant) :
  Forall (fun r => inherited (bucketKey r) = false) restaurants ->
  forall acc : gmap string (list Restaurant),
  exists buckets : gmap string (list Restaurant),
    reduceC groupStep restaurants acc = Normal buckets
    /\ forall key,
         buckets !! key
         = match bucketOf key restaurants with
           | [] => acc !! key
           | r :: rest => Some (default [] (acc !! key) ++ r :: rest)
           end.
Proof.
  induction 1 as [|r rest Hr _ IH]; intros acc.
  - exists acc. split; reflexivity.
  - change (reduceC groupStep (r :: rest) acc)
      with (bindC (groupStep acc r) (reduceC groupStep rest)).
    set (ty := bucketKey r) in *.
    set (acc' := <[ty := default [] (acc !! ty) ++ [r]]> acc).
    assert (Hstep : groupStep acc r = Normal acc').
    { unfold groupStep. fold ty. subst acc'.
      destruct (acc !! ty) as [bucket|]; simpl; [done|]. by rewrite Hr. }
    rewrite Hstep. unfold bindC.
    destruct (IH acc') as (buckets & Hred & Hlook).
    exists buckets. split; [exact Hred|].
    intros key. rewrite Hlook, bucketOf_cons. fold ty.
    destruct (String.eqb_spec ty key) as [<-|Hne].
    + subst acc'. rewrite lookup_insert_eq. simpl.
      destruct (bucketOf ty rest); [done|]. by rewrite <- app_assoc.
    + subst acc'. by rewrite lookup_insert_ne.
Qed.

End TypesFacts.

(** C2 (as the code has it).  For every list of restaurants none of whose
    bucket keys is a property name inherited from [Object.prototype],
    [groupRestaurantsByType] returns a mapping in which the bucket of a
    key holds, in order, the restaurants with that key, and has no bucket
    for a key without restaurants; the key of a restaurant is its own
    [type] when that is present and not empty, registry name or not, and
    it is "Other" exactly when the type is missing, empty or the string
    "Other" itself. *)
Theorem group_by_own_type (restaurants : list Types.Restaurant) :
  Forall (fun r => Types.inherited (Types.bucketKey r) = false) restaurants ->
  exists buckets : gmap string (list Types.Restaurant),
    Types.groupRestaurantsByType restaurants = Normal buckets
    /\ (forall key,
          buckets !! key
          = match Types.bucketOf key restaurants with
            | [] => None
            | r :: rest => Some (r :: rest)
            end)
    /\ (forall r, r ∈ restaurants ->
          (Types.bucketKey r = "Other"
           <-> Js.truthy (Types.type r) = false \/ Types.type r = Some "Other")
          /\ (forall t, Types.type r = Some t -> t <> "" -> Types.bucketKey r = t)
          /\ exists bucket, buckets !! Types.bucketKey r = Some bucket /\ r ∈ bucket).
Proof.
  intros Hok.
  destruct (reduce_groupStep restaurants Hok ∅) as (buckets & Hred & Hlook).
  exists buckets. split_and!; [exact Hred | |].
  - intros key. rewrite Hlook, lookup_empty. by destruct (Types.bucketOf key restaurants).
  - intros r Hr. split_and!.
    + unfold Types.bucketKey.
      destruct (Types.type r) as [[|c t]|]; cbn [Js.truthy Js.nonempty from_option id].
      * split; [by left | done].
      * split; [intros ->; by right | intros [?|[=]]; [done | congruence]].
      * split; [by left | done].
    + intros t Ht Hne. unfold Types.bucketKey. rewrite Ht. simpl. by destruct t.
    + assert (Hin : r ∈ Types.bucketOf (Types.bucketKey r) restaurants).
      { apply list_elem_of_In, List.filter_In. split; [by apply list_elem_of_In|].
        apply String.eqb_refl. }
      rewrite Hlook, lookup_empty.
      destruct (Types.bucketOf (Types.bucketKey r) restaurants) as [|x l]; [inversion Hin|].
      eauto.
Qed.

(** C2 (the claim as worded fails).  "Diner" is not a registry type name,
    yet the restaurant of that type is grouped under the key "Diner" and
    the mapping has no bucket "Other". *)
Lemma unknown_type_not_in_Other :
  let r := Types.mkRestaurant "r1" (Some "Diner") in
  Types.isValidRestaurantType "Diner" = false
  /\ exists buckets : gmap string (list Types.Restaurant),
       Types.groupRestaurantsByType [r] = Normal buckets
       /\ buckets !! "Diner" = Some [r]
       /\ buckets !! "Other" = None.
Proof.
  split; [reflexivity|].
  eexists. split; [reflexivity|]. split.
  - apply lookup_insert_eq.
  - rewrite lookup_insert_ne by discriminate. apply lookup_empty.
Qed.

Lemma group_by_own_type_witness :
  let rs := [ Types.mkRestaurant "r1" (Some "Cafe"); Types.mkRestaurant "r2" None;
              Types.mkRestaurant "r3" (Some "Diner"); Types.mkRestaurant "r4" (Some "Cafe");
              Types.mkRestaurant "r5" (Some "Other"); Types.mkRestaurant "r6" (Some "") ] in
  Forall (fun r => Types.inherited (Types.bucketKey r) = false) rs
  /\ exists buckets : gmap string (list Types.Restaurant),
       Types.groupRestaurantsByType rs = Normal buckets
       /\ buckets !! "Cafe"
          = Some [Types.mkRestaurant "r1" (Some "Cafe"); Types.mkRestaurant "r4" (Some "Cafe")]
       /\ buckets !! "Other"
          = Some [Types.mkRestaurant "r2" None; Types.mkRestaurant "r5" (Some "Other");
                  Types.mkRestaurant "r6" (Some "")]
       /\ buckets !! "Diner" = Some [Types.mkRestaurant "r3" (Some "Diner")]
       /\ buckets !! "Bakery" = None.
Proof.
  intros rs.
  assert (Hok : Forall (fun r => Types.inherited (Types.bucketKey r) = false) rs)
    by (repeat constructor).
  split; [exact Hok|].
  destruct (group_by_own_type rs Hok) as (buckets & Hred & Hlook & _).
  exists buckets. split; [exact Hred|].
  split_and!; rewrite Hlook; reflexivity.
Defined.

(** A type named like a property inherited from [Object.prototype] makes
    the grouping throw. *)
Example group_inherited_key_throws :
  Types.groupRestaurantsByType [Types.mkRestaurant "r1" (Some "constructor")]
  = Throw "TypeError".
Proof. reflexivity. Qed.

(** C10 (as the code has it).  The search returns a subsequence of the
    registry in declared order.  A query that is empty or only white space
    returns all 11 entries; any other query returns the entries whose name
    or description contains the query trimmed of surrounding white space
    as a case-insensitive substring; "fine" returns exactly the
    "Fine Dining" entry. *)
Theorem search_by_trimmed_query (query : string) :
  Types.searchRestaurantTypes query `sublist_of` Types.RESTAURANT_TYPES
  /\ (Js.trim query = "" ->
     Types.searchRestaurantTypes query = Types.RESTAURANT_TYPES)
  /\ (Js.trim query <> "" ->
     Types.searchRestaurantTypes query = Types.matching (Js.trim query))
  /\ length Types.RESTAURANT_TYPES = 11%nat
  /\ Types.searchRestaurantTypes "fine"
     = [Types.mkRestaurantType "Fine Dining" "#8E24AA"
          "Upscale restaurants with premium service"].
Proof.
  split_and!.
  - unfold Types.searchRestaurantTypes.
    destruct (_ || _); [reflexivity | apply filter_sublist].
  - intros Ht. unfold Types.searchRestaurantTypes. rewrite Ht.
    by destruct (negb (Js.nonempty query)).
  - intros Ht. unfold Types.searchRestaurantTypes.
    destruct query as [|c t]; [done|].
    destruct (Js.trim (String c t)) as [|c' t'] eqn:E; [done|].
    cbn [Js.nonempty negb orb]. rewrite trim_lower, E.
    unfold Types.matching, Types.containsIgnoringCase. reflexivity.
  - reflexivity.
  - vm_compute. reflexivity.
Qed.

(** C10 (the claim as worded fails).  No entry contains the query "cafe "
    with its trailing space, in any letter case, but the search returns
    the "Cafe" entry. *)
Lemma search_trims_query :
  Types.matching "cafe " = []
  /\ Types.searchRestaurantTypes "cafe "
     = [Types.mkRestaurantType "Cafe" "#795548" "Coffee shops and light meals"].
Proof. split; reflexivity. Qed.

(** ** More on the registry and on grouping *)

Section RegistryFacts.
Import Types.

Lemma names_NoDup : NoDup (List.map name RESTAURANT_TYPES).
Proof. apply (bool_decide_unpack _). vm_compute. reflexivity. Qed.

Lemma colors_nonempty : Forall (fun e => Js.nonempty (color e) = true) RESTAURANT_TYPES.
Proof. repeat constructor. Qed.

(** An object filled by one assignment per entry of a list with distinct
    names holds, under each name, what the entry of that name gave. *)
Lemma fold_insert_lookup {V : Type} (v : RestaurantType -> V)
      (l : list RestaurantType) (acc : gmap string V) (ty : string) :
  NoDup (List.map name l) ->
  List.fold_left (fun acc e => <[name e := v e]> acc) l acc !! ty
  = match List.find (fun e => String.eqb (name e) ty) l with
    | Some e => Some (v e)
    | None => acc !! ty
    end.
Proof.
  revert acc. induction l as [|x l IH]; intros acc Hnd; [done|].
  simpl in Hnd. apply NoDup_cons in Hnd as [Hx Hnd].
  simpl. rewrite IH by done.
  destruct (String.eqb_spec (name x) ty) as [<-|Hne].
  - destruct (List.find _ l) as [e|] eqn:E.
    + apply List.find_some in E as [Hin He]. apply String.eqb_eq in He.
      destruct Hx. rewrite <- He. change (name e ∈ name <$> l).
      by apply list_elem_of_fmap_2, list_elem_of_In.
    + apply lookup_insert_eq.
  - destruct (List.find _ l); [done|]. by apply lookup_insert_ne.
Qed.

Lemma info_Some (ty : string) (e : RestaurantType) :
  getRestaurantTypeInfo ty = Some e -> name e = ty /\ e ∈ RESTAURANT_TYPES.
Proof.
  intros [Hin He]%List.find_some. split; [by apply String.eqb_eq | by apply list_elem_of_In].
Qed.

Lemma isValid_info (ty : string) :
  isValidRestaurantType ty = true <-> exists e, getRestaurantTypeInfo ty = Some e.
Proof.
  unfold isValidRestaurantType, getRestaurantTypeInfo. split.
  - intros (x & Hin & Hx)%List.existsb_exists.
    destruct (List.find _ RESTAURANT_TYPES) as [e|] eqn:E; [eauto|].
    eapply List.find_none in E; [|exact Hin]. simpl in E. congruence.
  - intros (e & [Hin He]%List.find_some). apply List.existsb_exists. eauto.
Qed.

Lemma bucketKey_is (ty : string) (r : Restaurant) :
  ty <> "" -> ty <> "Other" ->
  String.eqb (bucketKey r) ty = bool_decide (type r = Some ty).
Proof.
  intros Hne Hother. unfold bucketKey.
  destruct (type r) as [t|] eqn:E.
  - destruct t as [|c t]; cbn [Js.truthy Js.nonempty from_option id].
    + rewrite (proj2 (String.eqb_neq "Other" ty)) by congruence.
      symmetry. apply bool_decide_eq_false_2. congruence.
    + destruct (String.eqb_spec (String c t) ty) as [<-|Hn].
      * symmetry. by apply bool_decide_eq_true_2.
      * symmetry. apply bool_decide_eq_false_2. congruence.
  - cbn [Js.truthy]. rewrite (proj2 (String.eqb_neq "Other" ty)) by congruence.
    symmetry. by apply bool_decide_eq_false_2.
Qed.

Lemma bucketKey_Other (r : Restaurant) :
  String.eqb (bucketKey r) "Other"
  = negb (Js.truthy (type r)) || bool_decide (type r = Some "Other").
Proof.
  unfold bucketKey.
  destruct (type r) as [t|] eqn:E; [|reflexivity].
  destruct t as [|c t]; cbn [Js.truthy Js.nonempty from_option id negb orb]; [reflexivity|].
  destruct (String.eqb_spec (String c t) "Other") as [->|Hn].
  - symmetry. by apply bool_decide_eq_true_2.
  - symmetry. apply bool_decide_eq_false_2. congruence.
Qed.

Lemma bucketOf_byType (ty : string) (restaurants : list Restaurant) :
  ty <> "" -> ty <> "Other" -> bucketOf ty restaurants = getRestaurantsByType restaurants ty.
Proof.
  intros Hne Hother. unfold bucketOf, getRestaurantsByType.
  apply List.filter_ext. intros r. by apply bucketKey_is.
Qed.

(** A grouping that returns has filled its buckets as [reduce_groupStep]
    says, whatever the types were. *)
Lemma reduce_groupStep_returns (restaurants : list Restaurant) :
  forall acc buckets : gmap string (list Restaurant),
    reduceC groupStep restaurants acc = Normal buckets ->
    forall key,
      buckets !! key
      = match bucketOf key restaurants with
        | [] => acc !! key
        | r :: rest => Some (default [] (acc !! key) ++ r :: rest)
        end.
Proof.
  induction restaurants as [|r rest IH]; intros acc buckets Hred key.
  - injection Hred as <-. reflexivity.
  - change (reduceC groupStep (r :: rest) acc)
      with (bindC (groupStep acc r) (reduceC groupStep rest)) in Hred.
    set (ty := bucketKey r) in *.
    set (acc' := <[ty := default [] (acc !! ty) ++ [r]]> acc).
    assert (Hstep : groupStep acc r = Normal acc').
    { unfold groupStep in *. fold ty in Hred |- *. subst acc'.
      destruct (acc !! ty) as [bucket|]; simpl; [done|].
      destruct (inherited ty); [discriminate | done]. }
    rewrite Hstep in Hred. unfold bindC in Hred.
    rewrite (IH acc' buckets Hred key), bucketOf_cons. fold ty.
    destruct (String.eqb_spec ty key) as [<-|Hne].
    + subst acc'. rewrite lookup_insert_eq. simpl.
      destruct (bucketOf ty rest); [done|]. by rewrite <- app_assoc.
    + subst acc'. by rewrite lookup_insert_ne.
Qed.

Lemma flatten_Permutation (l1 l2 : list (string * list Restaurant)) :
  l1 ≡ₚ l2 -> List.concat (List.map snd l1) ≡ₚ List.concat (List.map snd l2).
Proof.
  induction 1 as [|x l l' _ IH|x y l|l l' l'' _ IH1 _ IH2]; simpl.
  - done.
  - by rewrite IH.
  - rewrite !app_assoc. f_equiv. apply Permutation_app_comm.
  - by rewrite IH1.
Qed.

Lemma flatten_insert (acc : gmap string (list Restaurant)) (ty : string) (r : Restaurant) :
  flatten (<[ty := default [] (acc !! ty) ++ [r]]> acc) ≡ₚ flatten acc ++ [r].
Proof.
  unfold flatten. destruct (acc !! ty) as [bucket|] eqn:E; simpl.
  - rewrite <- (flatten_Permutation _ _ (map_to_list_delete acc ty bucket E)).
    rewrite <- insert_delete_eq.
    rewrite (flatten_Permutation _ _
               (map_to_list_insert (delete ty acc) ty (bucket ++ [r]) (lookup_delete_eq acc ty))).
    simpl. rewrite <- !app_assoc. f_equiv. apply Permutation_app_comm.
  - rewrite (flatten_Permutation _ _ (map_to_list_insert acc ty [r] E)).
    simpl. apply Permutation_cons_append.
Qed.

Lemma reduce_groupStep_flatten (restaurants : list Restaurant) :
  forall acc buckets : gmap string (list Restaurant),
    reduceC groupStep restaurants acc = Normal buckets ->
    flatten buckets ≡ₚ flatten acc ++ restaurants.
Proof.
  induction restaurants as [|r rest IH]; intros acc buckets Hred.
  - injection Hred as <-. by rewrite app_nil_r.
  - change (reduceC groupStep (r :: rest) acc)
      with (bindC (groupStep acc r) (reduceC groupStep rest)) in Hred.
    set (ty := bucketKey r) in *.
    set (acc' := <[ty := default [] (acc !! ty) ++ [r]]> acc).
    assert (Hstep : groupStep acc r = Normal acc').
    { unfold groupStep in *. fold ty in Hred |- *. subst acc'.
      destruct (acc !! ty) as [bucket|]; simpl; [done|].
      destruct (inherited ty); [discriminate | done]. }
    rewrite Hstep in Hred. unfold bindC in Hred.
    rewrite (IH acc' buckets Hred). subst acc'. rewrite flatten_insert.
    by rewrite <- app_assoc.
Qed.

End RegistryFacts.

(** X1.  The three lookups of the registry agree: a name is valid exactly
    when it is one of the names listed, exactly when its entry is found,
    and the entry found carries that name. *)
Theorem registry_lookups_agree (ty : string) :
  (Types.isValidRestaurantType ty = true <-> ty ∈ Types.getRestaurantTypeNames)
  /\ (Types.isValidRestaurantType ty = true <->
      exists e, Types.getRestaurantTypeInfo ty = Some e)
  /\ (forall e, Types.getRestaurantTypeInfo ty = Some e ->
        Types.name e = ty /\ e ∈ Types.RESTAURANT_TYPES).
Proof.
  split_and!.
  - unfold Types.isValidRestaurantType, Types.getRestaurantTypeNames. split.
    + intros (x & Hin & Hx)%List.existsb_exists. apply String.eqb_eq in Hx as <-.
      change (Types.name x ∈ Types.name <$> Types.RESTAURANT_TYPES).
      by apply list_elem_of_fmap_2, list_elem_of_In.
    + intros Hin. change (ty ∈ Types.name <$> Types.RESTAURANT_TYPES) in Hin.
      apply list_elem_of_fmap in Hin as (x & -> & Hx).
      apply List.existsb_exists. exists x. split; [by apply list_elem_of_In|].
      apply String.eqb_refl.
  - apply isValid_info.
  - apply info_Some.
Qed.

(** X2.  The colour of a type is that of its registry entry; a name that
    is not in the registry gets the default "#FF6B35", unless it is a
    property name inherited from [Object.prototype]: then the lookup
    returns that inherited member instead of a colour. *)
Theorem color_of_type (ty : string) :
  Types.getRestaurantTypeColor ty
  = match Types.getRestaurantTypeInfo ty with
    | Some e => Types.Color (Types.color e)
    | None => if Types.inherited ty then Types.InheritedMember
              else Types.Color "#FF6B35"
    end.
Proof.
  unfold Types.getRestaurantTypeColor, Types.RESTAURANT_TYPE_COLORS.
  rewrite (fold_insert_lookup Types.color) by apply names_NoDup.
  fold (Types.getRestaurantTypeInfo ty).
  destruct (Types.getRestaurantTypeInfo ty) as [e|] eqn:E.
  - apply info_Some in E as [_ Hin].
    pose proof (proj1 (Forall_forall _ _) colors_nonempty e Hin) as Hc.
    simpl in Hc. by rewrite Hc.
  - by rewrite lookup_empty.
Qed.

(** X3.  In a grouping that returns, the bucket of a type name other than
    "Other" holds exactly what [getRestaurantsByType] selects for that
    name, in the same order, and is missing when nothing is selected; the
    bucket "Other" collects the restaurants whose type is missing, empty
    or literally "Other". *)
Theorem bucket_is_filter_by_type
        (restaurants : list Types.Restaurant)
        (buckets : gmap string (list Types.Restaurant)) :
  Types.groupRestaurantsByType restaurants = Normal buckets ->
  (forall ty, ty <> "" -> ty <> "Other" ->
     buckets !! ty = match Types.getRestaurantsByType restaurants ty with
                     | [] => None
                     | r :: rest => Some (r :: rest)
                     end)
  /\ buckets !! "Other"
     = match List.filter (fun r => negb (Js.truthy (Types.type r))
                                   || bool_decide (Types.type r = Some "Other"))
                         restaurants with
       | [] => None
       | r :: rest => Some (r :: rest)
       end.
Proof.
  intros Hred. unfold Types.groupRestaurantsByType in Hred.
  pose proof (reduce_groupStep_returns restaurants ∅ buckets Hred) as Hlook.
  split.
  - intros ty Hne Hother. rewrite Hlook, lookup_empty, bucketOf_byType by done.
    by destruct (Types.getRestaurantsByType restaurants ty).
  - rewrite Hlook, lookup_empty.
    assert (Types.bucketOf "Other" restaurants
            = List.filter (fun r => negb (Js.truthy (Types.type r))
                                    || bool_decide (Types.type r = Some "Other"))
                          restaurants) as ->.
    { apply List.filter_ext. intros r. apply bucketKey_Other. }
    by destruct (List.filter _ restaurants).
Qed.

Lemma bucket_is_filter_by_type_witness :
  let rs := [ Types.mkRestaurant "r1" (Some "Cafe"); Types.mkRestaurant "r2" None;
              Types.mkRestaurant "r3" (Some "Other"); Types.mkRestaurant "r4" (Some "Cafe") ] in
  exists buckets : gmap string (list Types.Restaurant),
    Types.groupRestaurantsByType rs = Normal buckets
    /\ buckets !! "Cafe" = Some (Types.getRestaurantsByType rs "Cafe")
    /\ buckets !! "Other"
       = Some [Types.mkRestaurant "r2" None; Types.mkRestaurant "r3" (Some "Other")].
Proof.
  intros rs. eexists. split; [reflexivity|].
  match goal with
  | |- ?m !! _ = _ /\ _ =>
      destruct (bucket_is_filter_by_type rs m eq_refl) as [Hty Hother]
  end.
  split.
  - rewrite Hty by discriminate. reflexivity.
  - rewrite Hother. reflexivity.
Defined.

(** X4.  A grouping that returns loses and invents nothing: its buckets
    taken together are a rearrangement of the restaurants given, so the
    sizes of the buckets add up to the number of restaurants. *)
Theorem grouping_conserves_restaurants
        (restaurants : list Types.Restaurant)
        (buckets : gmap string (list Types.Restaurant)) :
  Types.groupRestaurantsByType restaurants = Normal buckets ->
  Types.flatten buckets ≡ₚ restaurants
  /\ length (Types.flatten buckets) = length restaurants.
Proof.
  intros Hred.
  assert (H : Types.flatten buckets ≡ₚ restaurants).
  { rewrite (reduce_groupStep_flatten restaurants ∅ buckets Hred).
    unfold Types.flatten. by rewrite map_to_list_empty. }
  split; [exact H | by rewrite H].
Qed.

Lemma grouping_conserves_restaurants_witness :
  let rs := [ Types.mkRestaurant "r1" (Some "Cafe"); Types.mkRestaurant "r2" None;
              Types.mkRestaurant "r3" (Some "Diner"); Types.mkRestaurant "r4" (Some "Cafe") ] in
  exists buckets : gmap string (list Types.Restaurant),
    Types.groupRestaurantsByType rs = Normal buckets
    /\ Types.flatten buckets ≡ₚ rs
    /\ length (Types.flatten buckets) = 4%nat.
Proof.
  intros rs. eexists. split; [reflexivity|].
  match goal with
  | |- Types.flatten ?m ≡ₚ _ /\ _ =>
      destruct (grouping_conserves_restaurants rs m eq_refl) as [Hp Hl]
  end.
  split; [exact Hp | exact Hl].
Defined.

Section GroupingThrows.
Import Types.

Lemma reduce_groupStep_throws (restaurants : list Restaurant) :
  forall acc : gmap string (list Restaurant),
    (forall key, inherited key = true -> acc !! key = None) ->
    Exists (fun r => inherited (bucketKey r) = true) restaurants ->
    reduceC groupStep restaurants acc = Throw "TypeError".
Proof.
  induction restaurants as [|r rest IH]; intros acc Hacc Hex; [inversion Hex|].
  change (reduceC groupStep (r :: rest) acc)
    with (bindC (groupStep acc r) (reduceC groupStep rest)).
  unfold groupStep. cbv zeta. destruct (inherited (bucketKey r)) eqn:Ei.
  - by rewrite (Hacc _ Ei).
  - apply Exists_cons in Hex as [Hex|Hex]; [congruence|].
    assert (Hnext : forall bucket key,
               inherited key = true -> <[bucketKey r := bucket]> acc !! key = None).
    { intros bucket key Hk. rewrite lookup_insert_ne by congruence. by apply Hacc. }
    destruct (acc !! bucketKey r); simpl; apply IH; auto.
Qed.

End GroupingThrows.

(** X21.  The grouping throws exactly when some restaurant has a type
    named like a property inherited from [Object.prototype] (for instance
    "constructor" or "toString"); in every other case it returns. *)
Theorem grouping_throws_iff (restaurants : list Types.Restaurant) :
  (Types.groupRestaurantsByType restaurants = Throw "TypeError" <->
   Exists (fun r => Types.inherited (Types.bucketKey r) = true) restaurants)
  /\ ((exists buckets, Types.groupRestaurantsByType restaurants = Normal buckets) <->
      Forall (fun r => Types.inherited (Types.bucketKey r) = false) restaurants).
Proof.
  assert (Hdec : Exists (fun r => Types.inherited (Types.bucketKey r) = true) restaurants
                 \/ Forall (fun r => Types.inherited (Types.bucketKey r) = false) restaurants).
  { induction restaurants as [|r rest IH]; [by right|].
    destruct (Types.inherited (Types.bucketKey r)) eqn:E; [left; by left|].
    destruct IH as [IH|IH]; [left; by right | right; by constructor]. }
  assert (Hthrow : Exists (fun r => Types.inherited (Types.bucketKey r) = true) restaurants ->
                   Types.groupRestaurantsByType restaurants = Throw "TypeError").
  { intros Hex. apply reduce_groupStep_throws; [|done]. intros key _. apply lookup_empty. }
  assert (Hret : Forall (fun r => Types.inherited (Types.bucketKey r) = false) restaurants ->
                 exists buckets, Types.groupRestaurantsByType restaurants = Normal buckets).
  { intros Hall. destruct (reduce_groupStep restaurants Hall ∅) as (buckets & Hred & _). eauto. }
  split; split.
  - intros Ht. destruct Hdec as [Hex|Hall]; [done|].
    destruct (Hret Hall) as (buckets & Hb). congruence.
  - exact Hthrow.
  - intros (buckets & Hb). destruct Hdec as [Hex|Hall]; [|done].
    rewrite (Hthrow Hex) in Hb. discriminate.
  - exact Hret.
Qed.

(** ** Statistics per type *)

Section StatsFacts.
Import Stats.

Lemma initial_lookup (ty : string) :
  initial !! ty
  = (fun e => mkTypeStat 0 Zero (Types.color e)) <$> Types.getRestaurantTypeInfo ty.
Proof.
  unfold initial.
  rewrite (fold_insert_lookup (fun e => mkTypeStat 0 Zero (Types.color e)))
    by apply names_NoDup.
  fold (Types.getRestaurantTypeInfo ty).
  destruct (Types.getRestaurantTypeInfo ty); [done | by rewrite lookup_empty].
Qed.

Lemma initial_registryKeys : registryKeys initial.
Proof.
  intros ty. rewrite initial_lookup, isValid_info.
  destruct (Types.getRestaurantTypeInfo ty) as [e|]; simpl.
  - split; eauto.
  - split; [intros [? ?]; discriminate | intros [? ?]; discriminate].
Qed.

Lemma byType_cons (r : Types.Restaurant) (rest : list Types.Restaurant) (ty : string) :
  Types.getRestaurantsByType (r :: rest) ty
  = if bool_decide (Types.type r = Some ty)
    then r :: Types.getRestaurantsByType rest ty
    else Types.getRestaurantsByType rest ty.
Proof. reflexivity. Qed.

Lemma bump_increment (k : nat) (s : TypeStat) : bump k (increment s) = bump (S k) s.
Proof. unfold bump, increment. simpl. f_equal. lia. Qed.

(** The second loop from any state whose keys are the registry names. *)
Lemma count_loop (restaurants : list Types.Restaurant) :
  forall (st st' : gmap string TypeStat) (n n' : Z),
    registryKeys st ->
    List.fold_left countStep restaurants (st, n) = (st', n') ->
    registryKeys st'
    /\ n' = (n + Z.of_nat (length (List.filter counted restaurants)))%Z
    /\ forall ty, ty <> "" ->
         st' !! ty = bump (length (Types.getRestaurantsByType restaurants ty)) <$> st !! ty.
Proof.
  induction restaurants as [|r rest IH]; intros st st' n n' Hkeys Hfold.
  - injection Hfold as <- <-. split_and!; [done | simpl; lia |].
    intros ty _. destruct (st !! ty) as [[c p col]|]; simpl; [|done].
    unfold bump. simpl. do 2 f_equal. lia.
  - simpl in Hfold.
    destruct (Types.type r) as [ty0|] eqn:Et.
    2:{ destruct (IH st st' n n' Hkeys Hfold) as (Hk & Hn & Hl).
        split_and!; [done | |].
        - simpl. unfold counted at 1. by rewrite Et.
        - intros ty Hne. rewrite byType_cons, Et.
          rewrite bool_decide_eq_false_2 by discriminate. by apply Hl. }
    destruct (Js.nonempty ty0) eqn:Ene.
    2:{ destruct (IH st st' n n' Hkeys Hfold) as (Hk & Hn & Hl).
        split_and!; [done | |].
        - simpl. unfold counted at 1. by rewrite Et, Ene.
        - intros ty Hne. rewrite byType_cons, Et.
          apply nonempty_false in Ene as ->.
          rewrite bool_decide_eq_false_2 by congruence. by apply Hl. }
    destruct (st !! ty0) as [entry|] eqn:Es.
    + assert (Hvalid : Types.isValidRestaurantType ty0 = true) by (apply Hkeys; eauto).
      assert (Hkeys1 : registryKeys (<[ty0 := increment entry]> st)).
      { intros ty. destruct (decide (ty0 = ty)) as [<-|Hne].
        - rewrite lookup_insert_eq. split; eauto.
        - rewrite lookup_insert_ne by done. apply Hkeys. }
      destruct (IH _ st' _ n' Hkeys1 Hfold) as (Hk & Hn & Hl).
      split_and!; [done | |].
      * simpl. unfold counted at 1. rewrite Et, Ene, Hvalid. simpl. lia.
      * intros ty Hne. rewrite (Hl ty Hne), byType_cons, Et.
        destruct (decide (ty0 = ty)) as [<-|Hn0].
        -- rewrite bool_decide_eq_true_2 by done.
           rewrite lookup_insert_eq, Es. simpl. by rewrite bump_increment.
        -- rewrite bool_decide_eq_false_2 by congruence.
           by rewrite lookup_insert_ne.
    + assert (Hinvalid : Types.isValidRestaurantType ty0 = false).
      { destruct (Types.isValidRestaurantType ty0) eqn:Ev; [|done].
        apply Hkeys in Ev as [? Ev]. congruence. }
      assert (Hl0 : forall (st1 : gmap string TypeStat) ty,
                 st1 !! ty = bump (length (Types.getRestaurantsByType rest ty)) <$> st !! ty ->
                 st1 !! ty
                 = bump (length (Types.getRestaurantsByType (r :: rest) ty)) <$> st !! ty).
      { intros st1 ty H. rewrite byType_cons, Et.
        destruct (decide (ty0 = ty)) as [<-|Hn0].
        - rewrite H, Es. done.
        - by rewrite bool_decide_eq_false_2 by congruence. }
      destruct (Types.inherited ty0) eqn:Ei.
      * destruct (IH st st' _ n' Hkeys Hfold) as (Hk & Hn & Hl).
        split_and!; [done | |].
        -- simpl. unfold counted at 1. rewrite Et, Ene, Ei, orb_true_r. simpl. lia.
        -- intros ty Hne. by apply Hl0, Hl.
      * destruct (IH st st' n n' Hkeys Hfold) as (Hk & Hn & Hl).
        split_and!; [done | |].
        -- simpl. unfold counted at 1. by rewrite Et, Ene, Ei, Hinvalid.
        -- intros ty Hne. by apply Hl0, Hl.
Qed.

Lemma filter_split_length {A : Type} (p : A -> bool) (l : list A) :
  (length (List.filter p l) + length (List.filter (fun x => negb (p x)) l) = length l)%nat.
Proof.
  induction l as [|x l IH]; simpl; [done|]. destruct (p x); simpl; lia.
Qed.

(** Over a list of distinct names, exactly the valid types are matched,
    once. *)
Lemma matches_valid_once (o : option string) (l : list Types.RestaurantType) :
  NoDup (List.map Types.name l) ->
  sum_list (List.map (fun e => if bool_decide (o = Some (Types.name e)) then 1%nat else 0%nat) l)
  = match o with
    | Some ty => if List.existsb (fun t => String.eqb (Types.name t) ty) l then 1%nat else 0%nat
    | None => 0%nat
    end.
Proof.
  induction l as [|x l IH]; simpl.
  - intros _. by destruct o.
  - intros [Hx Hnd]%NoDup_cons. rewrite IH by done. destruct o as [ty|].
    + destruct (String.eqb_spec (Types.name x) ty) as [<-|Hne].
      * rewrite bool_decide_eq_true_2 by done. simpl.
        destruct (List.existsb _ l) eqn:E; [|done].
        apply List.existsb_exists in E as (y & Hy & Heq). apply String.eqb_eq in Heq.
        destruct Hx. rewrite <- Heq. change (Types.name y ∈ Types.name <$> l).
        by apply list_elem_of_fmap_2, list_elem_of_In.
      * rewrite bool_decide_eq_false_2 by congruence. done.
    + rewrite bool_decide_eq_false_2 by discriminate. done.
Qed.

Lemma counts_by_type_sum (l : list Types.RestaurantType) (restaurants : list Types.Restaurant) :
  NoDup (List.map Types.name l) ->
  sum_list (List.map (fun e => length (Types.getRestaurantsByType restaurants (Types.name e))) l)
  = length (List.filter
              (fun r => match Types.type r with
                        | Some ty => List.existsb (fun t => String.eqb (Types.name t) ty) l
                        | None => false
                        end) restaurants).
Proof.
  intros Hnd. induction restaurants as [|r rest IH].
  - simpl. clear Hnd. induction l as [|x l IHl]; simpl; [done | exact IHl].
  - assert (Hsplit : forall l',
      sum_list (List.map (fun e => length (Types.getRestaurantsByType (r :: rest) (Types.name e))) l')
      = (sum_list (List.map (fun e => if bool_decide (Types.type r = Some (Types.name e))
                                      then 1%nat else 0%nat) l')
         + sum_list (List.map (fun e => length (Types.getRestaurantsByType rest (Types.name e))) l'))%nat).
    { induction l' as [|x l' IHl']; [done|].
      cbn [List.map sum_list foldr]. rewrite IHl', byType_cons.
      destruct (bool_decide _); simpl; lia. }
    rewrite Hsplit, IH, (matches_valid_once _ l Hnd). cbn [List.filter].
    destruct (Types.type r) as [ty|]; [|done].
    destruct (List.existsb _ l); simpl; lia.
Qed.

End StatsFacts.

Section StatsResults.
Import Stats.
Variable toFixed1 : Z -> Z -> string.

Lemma stats_unfold (restaurants : list Types.Restaurant) :
  exists (st : gmap string TypeStat) (total : Z),
    List.fold_left countStep restaurants (initial, 0%Z) = (st, total)
    /\ getRestaurantTypeStats toFixed1 restaurants
       = mkResult (withPercentages toFixed1 st total) total
           (Z.of_nat (length restaurants)) (Z.of_nat (length restaurants) - total)%Z.
Proof.
  unfold getRestaurantTypeStats.
  destruct (List.fold_left countStep restaurants (initial, 0%Z)) as [st total].
  by exists st, total.
Qed.

Lemma inherited_not_valid (ty : string) :
  Types.inherited ty = true -> Types.isValidRestaurantType ty = false /\ Js.nonempty ty = true.
Proof.
  unfold Types.inherited. intros (k & Hk & E)%List.existsb_exists.
  apply String.eqb_eq in E as ->.
  assert (Hall : Forall (fun k => Types.isValidRestaurantType k = false /\ Js.nonempty k = true)
                        Types.inheritedKeys) by (repeat constructor).
  rewrite Forall_forall in Hall. by apply Hall, list_elem_of_In.
Qed.

Lemma valid_nonempty (ty : string) :
  Types.isValidRestaurantType ty = true -> Js.nonempty ty = true.
Proof. destruct ty; [discriminate | done]. Qed.

Lemma counted_split (restaurants : list Types.Restaurant) :
  length (List.filter counted restaurants)
  = (length (List.filter
               (fun r => match Types.type r with
                         | Some ty => Types.isValidRestaurantType ty
                         | None => false
                         end) restaurants)
     + length (List.filter
                 (fun r => match Types.type r with
                           | Some ty => Types.inherited ty
                           | None => false
                           end) restaurants))%nat.
Proof.
  induction restaurants as [|r rest IH]; [done|].
  cbn [List.filter]. unfold counted at 1.
  destruct (Types.type r) as [ty|]; [|exact IH].
  destruct (Types.isValidRestaurantType ty) eqn:Ev.
  - rewrite (valid_nonempty ty Ev). simpl.
    destruct (Types.inherited ty) eqn:Ei.
    + apply inherited_not_valid in Ei as [? _]. congruence.
    + simpl. lia.
  - destruct (Types.inherited ty) eqn:Ei.
    + destruct (inherited_not_valid ty Ei) as [_ ->]. simpl. lia.
    + rewrite andb_false_r. exact IH.
Qed.

End StatsResults.

(** X5.  In the statistics, the entries are those of the registry; the
    entry of a type carries the colour of the registry and, as its count,
    the number of restaurants that [getRestaurantsByType] selects for the
    type; its percentage is the formatted share of that count in
    [totalWithType], and stays the number 0 when [totalWithType] is 0. *)
Theorem stats_entry_of_type (toFixed1 : Z -> Z -> string)
        (restaurants : list Types.Restaurant) (ty : string) :
  let result := Stats.getRestaurantTypeStats toFixed1 restaurants in
  let n := Z.of_nat (length (Types.getRestaurantsByType restaurants ty)) in
  Stats.stats result !! ty
  = (fun e => Stats.mkTypeStat n
                (if (0 <? Stats.totalWithType result)%Z
                 then Stats.Fixed (toFixed1 n (Stats.totalWithType result))
                 else Stats.Zero)
                (Types.color e))
    <$> Types.getRestaurantTypeInfo ty.
Proof.
  intros result n. subst result.
  destruct (stats_unfold toFixed1 restaurants) as (st & total & Hfold & ->).
  destruct (count_loop restaurants _ _ _ _ initial_registryKeys Hfold) as (Hkeys & _ & Hl).
  cbn [Stats.stats Stats.totalWithType].
  assert (Hst : st !! ty
                = (fun e => Stats.mkTypeStat n Stats.Zero (Types.color e))
                  <$> Types.getRestaurantTypeInfo ty).
  { destruct (decide (ty = "")) as [->|Hne].
    - destruct (st !! "") eqn:E; [|done].
      assert (Types.isValidRestaurantType "" = true) by (apply Hkeys; eauto). discriminate.
    - rewrite (Hl ty Hne), initial_lookup.
      destruct (Types.getRestaurantTypeInfo ty); [|done]. reflexivity. }
  unfold Stats.withPercentages. destruct (0 <? total)%Z.
  - rewrite lookup_fmap, Hst. by destruct (Types.getRestaurantTypeInfo ty).
  - exact Hst.
Qed.

(** X6.  [totalWithType] counts the restaurants whose type is a registry
    name or a property name inherited from [Object.prototype];
    [withoutType] counts all the others; both lie between 0 and
    [totalRestaurants], which is their sum and the length of the list. *)
Theorem stats_totals (toFixed1 : Z -> Z -> string) (restaurants : list Types.Restaurant) :
  let result := Stats.getRestaurantTypeStats toFixed1 restaurants in
  Stats.totalWithType result = Z.of_nat (length (List.filter Stats.counted restaurants))
  /\ Stats.withoutType result
     = Z.of_nat (length (List.filter (fun r => negb (Stats.counted r)) restaurants))
  /\ Stats.totalRestaurants result = Z.of_nat (length restaurants)
  /\ (Stats.totalWithType result + Stats.withoutType result
      = Stats.totalRestaurants result)%Z
  /\ (0 <= Stats.totalWithType result <= Stats.totalRestaurants result)%Z
  /\ (0 <= Stats.withoutType result <= Stats.totalRestaurants result)%Z.
Proof.
  intros result. subst result.
  destruct (stats_unfold toFixed1 restaurants) as (st & total & Hfold & ->).
  destruct (count_loop restaurants _ _ _ _ initial_registryKeys Hfold) as (_ & Hn & _).
  cbn [Stats.totalWithType Stats.withoutType Stats.totalRestaurants].
  pose proof (filter_split_length Stats.counted restaurants) as Hsplit.
  rewrite Hn. split_and!; lia.
Qed.

(** X7.  The counts of the registry types add up to [totalWithType] less
    the restaurants whose type is a property name inherited from
    [Object.prototype]: those raise [totalWithType] without being counted
    under any type. *)
Theorem stats_counts_add_up (toFixed1 : Z -> Z -> string)
        (restaurants : list Types.Restaurant) :
  let result := Stats.getRestaurantTypeStats toFixed1 restaurants in
  Stats.totalWithType result
  = (Z.of_nat (sum_list (List.map
                           (fun e => length (Types.getRestaurantsByType restaurants (Types.name e)))
                           Types.RESTAURANT_TYPES))
     + Z.of_nat (length (List.filter
                           (fun r => match Types.type r with
                                     | Some ty => Types.inherited ty
                                     | None => false
                                     end) restaurants)))%Z.
Proof.
  intros result. subst result.
  destruct (stats_unfold toFixed1 restaurants) as (st & total & Hfold & ->).
  destruct (count_loop restaurants _ _ _ _ initial_registryKeys Hfold) as (_ & Hn & _).
  cbn [Stats.totalWithType]. rewrite Hn, counted_split.
  rewrite (counts_by_type_sum Types.RESTAURANT_TYPES restaurants names_NoDup).
  unfold Types.isValidRestaurantType. lia.
Qed.

(** ** More on the search *)

Section SearchFacts.
Import Js.

Lemma lower_char_idem (c : ascii) : lower_char (lower_char c) = lower_char c.
Proof. destruct c as [[] [] [] [] [] [] [] []]; reflexivity. Qed.

Lemma toLowerCase_idem (s : string) : toLowerCase (toLowerCase s) = toLowerCase s.
Proof. induction s as [|c t IH]; simpl; [done|]. by rewrite lower_char_idem, IH. Qed.

Lemma nonempty_lower (s : string) : nonempty (toLowerCase s) = nonempty s.
Proof. by destruct s. Qed.

Lemma trim_empty_of_empty (s : string) : nonempty s = false -> nonempty (trim s) = false.
Proof. by destruct s. Qed.

(** The test that sends a query to the whole registry looks at the
    trimmed query only. *)
Lemma blank_query (q : string) :
  negb (nonempty q) || negb (nonempty (trim q)) = negb (nonempty (trim q)).
Proof.
  destruct (nonempty q) eqn:E; [done|]. by rewrite (trim_empty_of_empty q E).
Qed.

End SearchFacts.

(** X19.  The search ignores the letter case of the query and the white
    space around it: lower-casing or trimming the query changes nothing in
    what is returned. *)
Theorem search_ignores_case_and_margins (query : string) :
  Types.searchRestaurantTypes (Js.toLowerCase query) = Types.searchRestaurantTypes query
  /\ Types.searchRestaurantTypes (Js.trim query) = Types.searchRestaurantTypes query.
Proof.
  unfold Types.searchRestaurantTypes. rewrite !blank_query. split.
  - rewrite toLowerCase_idem, trim_lower, nonempty_lower. reflexivity.
  - rewrite trim_idem, (trim_lower (Js.trim query)), trim_idem, <- trim_lower. reflexivity.
Qed.
